(** * The filter-and-aggregate pipeline of the EV analytics dashboard

    A shallow embedding of the data-processing part of
    [frontend/src/App.js]: the record normalizer [parseCsvRows], the
    filtered set [data], the aggregate views ([total], [uniqueMakes],
    [avgRange], [cafvPct], [byYear], [topMakes], [typeDist], [cafvDist],
    [rangeHist], the preview slice) and the filter domain ([allStates],
    [allTypes], the year bounds computed in [handleFile]).

    Modelling conventions.
    - A JavaScript string is a [string]: a sequence of code units in
      U+0000..U+00FF.  On that range [trim], [toLowerCase], [includes],
      the regular expressions of the source and the default ordering of
      [Array.prototype.sort] are exactly the functions below.
    - A JavaScript number is a [number]: [NaN], the two infinities, or a
      finite value, kept as an exact rational.  Every finite double is a
      rational, and comparisons of doubles are comparisons of their values,
      so the filter, the grouping, the histogram and the sorts behave here
      as they do on doubles.  The arithmetic that creates new values
      (the literal conversion in [StringToNumber], the sum and the
      quotients behind [avgRange] and [cafvPct]) is exact: the rounding of
      binary64 is not modelled, and the two zeros are one value.
    - A numeric field of a record holds what [Number.isFinite(x) ? x : null]
      yields: a finite number, or [null], which is [None].
    - A count (a length, a value of a counting [Map]) is a [nat].
    - A [Map] or [Set] is a list in insertion order, its keys compared by
      SameValueZero.  [Array.prototype.sort] is stable, so under a
      consistent comparator its result is the one list that a stable
      insertion sort computes. *)

From Stdlib Require Import List String Ascii Bool Arith ZArith QArith Qabs Qround
  Qminmax Lia Lqa Sorted Permutation OrderedTypeEx.
Import ListNotations.

Set Implicit Arguments.

Local Close Scope Q_scope.
Local Open Scope nat_scope.
Local Open Scope string_scope.
Local Open Scope list_scope.

(** ** Strings *)

Module Str.

(** WhiteSpace and LineTerminator code units below U+0100: TAB, LF, VT,
    FF, CR, SP and NBSP.  [String.prototype.trim] and the class [\s]
    use the same set. *)
Definition isWhiteSpace (c : ascii) : bool :=
  let n := nat_of_ascii c in
  ((9 <=? n) && (n <=? 13) || (n =? 32) || (n =? 160))%nat.

Fixpoint trimStart (s : string) : string :=
  match s with
  | EmptyString => EmptyString
  | String c s' => if isWhiteSpace c then trimStart s' else s
  end.

Fixpoint trimEnd (s : string) : string :=
  match s with
  | EmptyString => EmptyString
  | String c s' =>
      match trimEnd s' with
      | EmptyString => if isWhiteSpace c then EmptyString else String c EmptyString
      | t => String c t
      end
  end.

Definition trim (s : string) : string := trimEnd (trimStart s).

(** [s.replace(/\s+/g, " ")]: every maximal run of white space becomes
    one space.  [inRun] tells that the previous code unit was white. *)
Fixpoint collapseFrom (inRun : bool) (s : string) : string :=
  match s with
  | EmptyString => EmptyString
  | String c s' =>
      if isWhiteSpace c
      then (if inRun then collapseFrom true s'
            else String " " (collapseFrom true s'))
      else String c (collapseFrom false s')
  end.

Definition collapseWhiteSpace (s : string) : string := collapseFrom false s.

(** Lower-case mapping of one code unit: A-Z, and U+00C0..U+00DE
    without the multiplication sign U+00D7. *)
Definition lowerChar (c : ascii) : ascii :=
  let n := nat_of_ascii c in
  if ((65 <=? n) && (n <=? 90)
      || (192 <=? n) && (n <=? 222) && negb (n =? 215))%nat
  then ascii_of_nat (n + 32) else c.

Fixpoint toLowerCase (s : string) : string :=
  match s with
  | EmptyString => EmptyString
  | String c s' => String (lowerChar c) (toLowerCase s')
  end.

(** [s.includes(t)] *)
Fixpoint includes (s t : string) : bool :=
  prefix t s ||
  match s with
  | EmptyString => false
  | String _ s' => includes s' t
  end.

(** Truthiness of a string value: [Boolean(s)]. *)
Definition truthy (s : string) : bool :=
  match s with EmptyString => false | _ => true end.

(** Matching one code unit against an ASCII pattern character under the
    flag [i]: both are canonicalized by upper-casing, and no code unit
    outside ASCII canonicalizes to an ASCII letter. *)
Definition upperASCII (c : ascii) : ascii :=
  let n := nat_of_ascii c in
  if ((97 <=? n) && (n <=? 122))%nat then ascii_of_nat (n - 32) else c.

Definition charMatchI (p c : ascii) : bool :=
  Ascii.eqb (upperASCII p) (upperASCII c).

Fixpoint prefixI (pat s : string) : bool :=
  match pat, s with
  | EmptyString, _ => true
  | String p pat', String c s' => charMatchI p c && prefixI pat' s'
  | String _ _, EmptyString => false
  end.

(** [new RegExp(pat, "i").test(s)] for a pattern of literal ASCII
    characters: some position of [s] starts a match. *)
Fixpoint testI (pat s : string) : bool :=
  prefixI pat s ||
  match s with
  | EmptyString => false
  | String _ s' => testI pat s'
  end.

End Str.

(** ** Numbers *)

Inductive number : Type :=
| NaN
| PosInfinity
| NegInfinity
| Finite (q : Q).

Module Num.

(** [Number.isFinite] *)
Definition isFinite (x : number) : bool :=
  match x with Finite _ => true | _ => false end.

Definition Qltb (x y : Q) : bool := negb (Qle_bool y x).

(** [Math.round]: the nearest integer, ties towards +Infinity. *)
Definition round (x : Q) : Z := Qfloor (x + (1 # 2))%Q.

(** Values of magnitude at least 2^1024 - 2^970 convert to an
    infinity; below it the conversion yields a finite number. *)
Definition overflowBound : Z := (2 ^ 1024 - 2 ^ 970)%Z.

Definition ofExact (q : Q) : number :=
  if Qle_bool (inject_Z overflowBound) (Qabs q)
  then (if Qle_bool 0%Q q then PosInfinity else NegInfinity)
  else Finite q.

Definition opp (x : number) : number :=
  match x with
  | NaN => NaN
  | PosInfinity => NegInfinity
  | NegInfinity => PosInfinity
  | Finite q => Finite (Qred (- q))
  end.

(** *** StringToNumber, the conversion applied by [Number(s)] *)

Definition digitVal (base : Z) (c : ascii) : option Z :=
  let n := Z.of_nat (nat_of_ascii c) in
  let v :=
    (if (48 <=? n) && (n <=? 57) then Some (n - 48)
     else if (97 <=? n) && (n <=? 102) then Some (n - 87)
     else if (65 <=? n) && (n <=? 70) then Some (n - 55)
     else None)%Z in
  match v with
  | Some d => if (d <? base)%Z then Some d else None
  | None => None
  end.

(** Longest prefix of digits of [base]: the digits read, most
    significant first, and the rest of the text. *)
Fixpoint spanDigits (base : Z) (s : list ascii) : list Z * list ascii :=
  match s with
  | [] => ([], [])
  | c :: s' =>
      match digitVal base c with
      | Some d => let '(ds, r) := spanDigits base s' in (d :: ds, r)
      | None => ([], s)
      end
  end.

Definition digitsValue (base : Z) (ds : list Z) : Z :=
  fold_left (fun acc d => acc * base + d)%Z ds 0%Z.

(** [m * 10^k] *)
Definition scale10 (m k : Z) : Q :=
  if (0 <=? k)%Z then inject_Z (m * 10 ^ k)
  else Qred (Qmake m (Z.to_pos (10 ^ (- k)))).

(** ExponentPart, optional: [None] when the text is malformed. *)
Definition parseExponent (s : list ascii) : option Z :=
  match s with
  | [] => Some 0%Z
  | c :: s' =>
      if Ascii.eqb c "e"%char || Ascii.eqb c "E"%char then
        let '(neg, s'') :=
          match s' with
          | "+"%char :: t => (false, t)
          | "-"%char :: t => (true, t)
          | _ => (false, s')
          end in
        match spanDigits 10 s'' with
        | ((_ :: _) as ds, []) =>
            let e := digitsValue 10 ds in
            Some (if neg then (- e)%Z else e)
        | _ => None
        end
      else None
  end.

(** StrUnsignedDecimalLiteral without the [Infinity] alternative. *)
Definition parseUnsignedDecimal (s : list ascii) : option Q :=
  let '(ip, r1) := spanDigits 10 s in
  let '(fp, r2) :=
    match r1 with
    | "."%char :: t => spanDigits 10 t
    | _ => ([], r1)
    end in
  match ip, fp with
  | [], [] => None
  | _, _ =>
      match parseExponent r2 with
      | Some e =>
          Some (scale10 (digitsValue 10 (ip ++ fp))
                        (e - Z.of_nat (List.length fp)))
      | None => None
      end
  end.

Definition parseUnsigned (s : list ascii) : number :=
  if String.eqb (string_of_list_ascii s) "Infinity" then PosInfinity
  else match parseUnsignedDecimal s with
       | Some q => ofExact q
       | None => NaN
       end.

(** NonDecimalIntegerLiteral: the digits after the prefix. *)
Definition parseRadix (base : Z) (s : list ascii) : number :=
  match spanDigits base s with
  | ((_ :: _) as ds, []) => ofExact (inject_Z (digitsValue base ds))
  | _ => NaN
  end.

Definition StringToNumber (str : string) : number :=
  match list_ascii_of_string (Str.trim str) with
  | [] => Finite 0%Q
  | "0"%char :: "x"%char :: t | "0"%char :: "X"%char :: t => parseRadix 16 t
  | "0"%char :: "o"%char :: t | "0"%char :: "O"%char :: t => parseRadix 8 t
  | "0"%char :: "b"%char :: t | "0"%char :: "B"%char :: t => parseRadix 2 t
  | "+"%char :: t => parseUnsigned t
  | "-"%char :: t => opp (parseUnsigned t)
  | t => parseUnsigned t
  end.

(** [Number(v)] for a value that is a string or [undefined]. *)
Definition Number (v : option string) : number :=
  match v with
  | None => NaN
  | Some s => StringToNumber s
  end.

End Num.

(** ** Raw rows and normalized records *)

(** A raw row, as the CSV parser delivers it: the cells of one line under
    their header names, each name once.  A column the row lacks reads as
    [undefined]. *)
Definition RawRow : Type := list (string * string).

Fixpoint prop (r : RawRow) (k : string) : option string :=
  match r with
  | [] => None
  | (k', v) :: r' => if String.eqb k' k then Some v else prop r' k
  end.

(** [a ?? b] *)
Definition nullish {A : Type} (a b : option A) : option A :=
  match a with Some _ => a | None => b end.

Definition nullishOr {A : Type} (a : option A) (b : A) : A :=
  match a with Some x => x | None => b end.

Infix "??" := nullish (at level 61, left associativity).
Infix "?!" := nullishOr (at level 62, left associativity).

Record Row : Type := mkRow {
  year : option Q;
  range : option Q;
  type : string;
  make : string;
  state : string;
  cafv : string;
  city : string;
  county : string
}.

(** [Number.isFinite(x) ? x : null] *)
Definition finiteOrNull (x : number) : option Q :=
  match x with Finite q => Some q | _ => None end.

(** [Number.isFinite] on a field that holds a finite number or [null]. *)
Definition isFiniteField (x : option Q) : bool :=
  match x with Some _ => true | None => false end.

Definition parseCsvRow (r : RawRow) : Row :=
  let yr := Num.Number (prop r "Model Year" ?? prop r "model_year" ?? prop r "modelYear") in
  let rng := Num.Number (prop r "Electric Range" ?? prop r "electric_range" ?? prop r "range") in
  let type := Str.trim (Str.collapseWhiteSpace
                (prop r "Electric Vehicle Type" ?? prop r "type" ?! "")) in
  let make := Str.trim (prop r "Make" ?? prop r "make" ?! "") in
  let state := Str.trim (prop r "State" ?? prop r "state" ?! "") in
  let cafv := Str.trim
                (prop r "Clean Alternative Fuel Vehicle (CAFV) Eligibility"
                   ?? prop r "cafv" ?! "") in
  {| year := finiteOrNull yr;
     range := finiteOrNull rng;
     type := type;
     make := make;
     state := state;
     cafv := cafv;
     city := prop r "City" ?! "";
     county := prop r "County" ?! "" |}.

Definition parseCsvRows (rows : list RawRow) : list Row :=
  map parseCsvRow rows.

(** ** Filter parameters and the filtered set *)

Record FilterParams : Type := mkFilter {
  stateFilter : string;
  typeFilter : string;
  yearRange : Q * Q;
  makeQuery : string
}.

(** The initial values of the four pieces of filter state. *)
Definition initialFilter : FilterParams :=
  {| stateFilter := "ALL"; typeFilter := "ALL";
     yearRange := (2010, 2025)%Q; makeQuery := "" |}.

(** The callback of [raw.filter] inside [data]. *)
Definition keep (yMin yMax : Q) (stateFilter typeFilter mq : string)
    (d : Row) : bool :=
  if isFiniteField (year d) &&
     match year d with
     | Some y => Num.Qltb y yMin || Num.Qltb yMax y
     | None => false
     end
  then false
  else if negb (stateFilter =? "ALL") && negb (state d =? stateFilter) then false
  else if negb (typeFilter =? "ALL") && negb (type d =? typeFilter) then false
  else if Str.truthy mq && negb (Str.includes (Str.toLowerCase (make d)) mq) then false
  else true.

Definition data (raw : list Row) (p : FilterParams) : list Row :=
  let '(yMin, yMax) := yearRange p in
  let mq := Str.toLowerCase (Str.trim (makeQuery p)) in
  filter (keep yMin yMax (stateFilter p) (typeFilter p) mq) raw.

(** The change handlers of the four controls: each replaces one piece of
    the filter state. *)
Definition setStateFilter (v : string) (p : FilterParams) : FilterParams :=
  {| stateFilter := v; typeFilter := typeFilter p;
     yearRange := yearRange p; makeQuery := makeQuery p |}.

Definition setTypeFilter (v : string) (p : FilterParams) : FilterParams :=
  {| stateFilter := stateFilter p; typeFilter := v;
     yearRange := yearRange p; makeQuery := makeQuery p |}.

Definition setYearRange (v : Q * Q) (p : FilterParams) : FilterParams :=
  {| stateFilter := stateFilter p; typeFilter := typeFilter p;
     yearRange := v; makeQuery := makeQuery p |}.

Definition setMakeQuery (v : string) (p : FilterParams) : FilterParams :=
  {| stateFilter := stateFilter p; typeFilter := typeFilter p;
     yearRange := yearRange p; makeQuery := v |}.

(** ** Maps, sets and sorting *)

Module JS.
Section Collections.

Variable K : Type.
(** SameValueZero on the keys. *)
Variable eqb : K -> K -> bool.

(** [map.get(k) || 0] *)
Fixpoint getOr0 (m : list (K * nat)) (k : K) : nat :=
  match m with
  | [] => 0
  | (k', v) :: m' => if eqb k' k then v else getOr0 m' k
  end.

(** [map.set(k, v)]: an entry that exists keeps its place. *)
Fixpoint set (m : list (K * nat)) (k : K) (v : nat) : list (K * nat) :=
  match m with
  | [] => [(k, v)]
  | (k', v') :: m' =>
      if eqb k' k then (k', v) :: m' else (k', v') :: set m' k v
  end.

(** [map.set(k, (map.get(k) || 0) + 1)] *)
Definition bump (m : list (K * nat)) (k : K) : list (K * nat) :=
  set m k (getOr0 m k + 1).

Fixpoint has (s : list K) (k : K) : bool :=
  match s with
  | [] => false
  | k' :: s' => eqb k' k || has s' k
  end.

(** [set.add(k)] *)
Definition add (s : list K) (k : K) : list K :=
  if has s k then s else s ++ [k].

(** [new Set(l)] *)
Definition SetOf (l : list K) : list K := fold_left add l [].

End Collections.

Section Sort.

Variable A : Type.
(** The comparator: a positive result sends its first argument after
    its second. *)
Variable cmp : A -> A -> Q.

Fixpoint insert (x : A) (l : list A) : list A :=
  match l with
  | [] => [x]
  | y :: l' => if Num.Qltb 0%Q (cmp x y) then y :: insert x l' else x :: l
  end.

(** [l.sort(cmp)]: each member, from the last to the first, is put
    before the first member of the sorted rest that it need not follow. *)
Definition sort (l : list A) : list A := fold_right insert [] l.

End Sort.

(** The comparison of [sort()] without a comparator, on strings: by
    code units. *)
Definition defaultCompare (a b : string) : Q :=
  match String.compare a b with
  | Lt => (-1)%Q
  | Eq => 0%Q
  | Gt => 1%Q
  end.

(** [l.slice(0, n)] and [l.slice(n)] *)
Definition slice0 {A : Type} (n : nat) (l : list A) : list A := firstn n l.
Definition sliceFrom {A : Type} (n : nat) (l : list A) : list A := skipn n l.

End JS.

Definition ofNat (n : nat) : Q := inject_Z (Z.of_nat n).

(** ** The aggregate views *)

(** *** Summary counters *)

Definition total (data : list Row) : nat := List.length data.

Definition makeSet (data : list Row) : list string :=
  JS.SetOf String.eqb (filter Str.truthy (map make data)).

Definition uniqueMakes (data : list Row) : nat := List.length (makeSet data).

Definition ranges (data : list Row) : list (option Q) :=
  filter (fun x => isFiniteField x &&
                   match x with Some q => Num.Qltb 0%Q q | None => false end)
         (map range data).

(** [a + b] where [b] is a number or [null]. *)
Definition plus (a : Q) (b : option Q) : Q :=
  match b with Some q => (a + q)%Q | None => a end.

Definition avgRange (data : list Row) : Z :=
  let ranges := ranges data in
  if (List.length ranges =? 0)%nat then 0%Z
  else Num.round (fold_left plus ranges 0%Q / ofNat (List.length ranges))%Q.

Definition eligible (data : list Row) : list Row :=
  filter (fun d => Str.testI "Eligible" (cafv d)) data.

Definition cafvPct (data : list Row) : Z :=
  let total := total data in
  if (total =? 0)%nat then 0%Z
  else Num.round (ofNat (List.length (eligible data)) / ofNat total * 100)%Q.

(** *** Year series *)

(** The comparator of the sort inside [byYear]. *)
Definition byYearAsc (a b : Q * nat) : Q := (fst a - fst b)%Q.

Definition byYear (data : list Row) : list (Q * nat) :=
  let map :=
    fold_left (fun map d =>
                 if negb (isFiniteField (year d)) then map
                 else match year d with
                      | Some y => JS.bump Qeq_bool map y
                      | None => map
                      end) data [] in
  JS.sort byYearAsc map.

(** *** Top makes *)

Definition makeCounts (data : list Row) : list (string * nat) :=
  fold_left (fun map d =>
               if negb (Str.truthy (make d)) then map
               else JS.bump String.eqb map (make d)) data [].

Definition byCountDesc (a b : string * nat) : Q := (ofNat (snd b) - ofNat (snd a))%Q.

Definition topMakes (data : list Row) : list (string * nat) :=
  JS.slice0 10 (JS.sort byCountDesc (makeCounts data)).

(** *** Type and eligibility distributions *)

(** [s || "Unknown"] *)
Definition orUnknown (s : string) : string :=
  if Str.truthy s then s else "Unknown".

Definition typeDist (data : list Row) : list (string * nat) :=
  fold_left (fun map d => JS.bump String.eqb map (orUnknown (type d))) data [].

Definition cafvCounts (data : list Row) : list (string * nat) :=
  fold_left (fun map d => JS.bump String.eqb map (orUnknown (cafv d))) data [].

Definition cafvDist (data : list Row) : list (string * nat) :=
  let sorted := JS.sort byCountDesc (cafvCounts data) in
  let top := JS.slice0 4 sorted in
  let rest := fold_left (fun s e => s + snd e) (JS.sliceFrom 4 sorted) 0 in
  let res := top in
  if (0 <? rest)%nat then res ++ [("Other", rest)] else res.

(** *** Range histogram *)

Record Bin : Type := mkBin { label : string; min : Q; max : number }.

(** The labels are display text; the dash in them is U+2013. *)
Definition bins : list Bin :=
  [ mkBin "0" 0 (Finite 0);
    mkBin "1–50" 1 (Finite 50);
    mkBin "51–100" 51 (Finite 100);
    mkBin "101–200" 101 (Finite 200);
    mkBin "201–300" 201 (Finite 300);
    mkBin "301+" 301 PosInfinity ]%Q.

(** [r <= m] for a finite [r]. *)
Definition leNumber (r : Q) (m : number) : bool :=
  match m with
  | Finite q => Qle_bool r q
  | PosInfinity => true
  | NegInfinity | NaN => false
  end.

Definition inBin (r : Q) (b : Bin) : bool :=
  Qle_bool (min b) r && leNumber r (max b).

(** The loop over the bins that stops at the first one holding [r]. *)
Fixpoint countInto (r : Q) (counts : list (Bin * nat)) : list (Bin * nat) :=
  match counts with
  | [] => []
  | (b, c) :: counts' =>
      if inBin r b then (b, c + 1) :: counts'
      else (b, c) :: countInto r counts'
  end.

(** The callback of [data.forEach] inside [rangeHist]. *)
Definition histStep (counts : list (Bin * nat)) (d : Row) : list (Bin * nat) :=
  let r := range d in
  if negb (isFiniteField r) then counts
  else match r with
       | Some r => countInto r counts
       | None => counts
       end.

Definition rangeHist (data : list Row) : list (string * nat) :=
  let counts := map (fun b => (b, 0)) bins in
  let counts := fold_left histStep data counts in
  map (fun bc => (label (fst bc), snd bc)) counts.

(** *** Preview rows *)

Definition preview (data : list Row) : list Row := JS.slice0 20 data.

(** ** The filter domain *)

Definition allStates (raw : list Row) : list string :=
  let s := JS.SetOf String.eqb (filter Str.truthy (map state raw)) in
  "ALL" :: JS.sort JS.defaultCompare s.

Definition allTypes (raw : list Row) : list string :=
  let s := JS.SetOf String.eqb (filter Str.truthy (map type raw)) in
  "ALL" :: JS.sort JS.defaultCompare s.

(** [Math.min(...ys)] and [Math.max(...ys)] on finite numbers; the empty
    spread gives the infinity the fold starts from. *)
Definition mathMin (ys : list Q) : number :=
  fold_left (fun m y => match m with
                        | Finite q => Finite (Qmin q y)
                        | PosInfinity => Finite y
                        | _ => m
                        end) ys PosInfinity.

Definition mathMax (ys : list Q) : number :=
  fold_left (fun m y => match m with
                        | Finite q => Finite (Qmax q y)
                        | NegInfinity => Finite y
                        | _ => m
                        end) ys NegInfinity.

(** The years that [handleFile] and [loadFromPublic] collect. *)
Definition years (rows : list Row) : list (option Q) :=
  filter isFiniteField (map year rows).

Definition yearBounds (rows : list Row) : number * number :=
  let ys := years rows in
  let qs := flat_map (fun y => match y with Some q => [q] | None => [] end) ys in
  let minY := if (List.length ys =? 0)%nat then Finite 2010%Q else mathMin qs in
  let maxY := if (List.length ys =? 0)%nat then Finite 2025%Q else mathMax qs in
  (minY, maxY).

(** ** The marks of the year slider *)

Module Marks.


Section YearMarks.

(** [String(y)], the text of a number. *)
Variable numberToString : Q -> string.









End YearMarks.

End Marks.

(** ** The reading of the specification *)

(** [t] occurs in [s] as a substring. *)
Definition Contains (s t : string) : Prop :=
  exists pre post, s = (pre ++ t ++ post)%string.

(** The filter predicate, in the words of the specification. *)
Definition FilterPredicate (p : FilterParams) (d : Row) : Prop :=
  (forall y, year d = Some y ->
     (fst (yearRange p) <= y)%Q /\ (y <= snd (yearRange p))%Q) /\
  (stateFilter p <> "ALL" -> state d = stateFilter p) /\
  (typeFilter p <> "ALL" -> type d = typeFilter p) /\
  (Str.trim (makeQuery p) <> "" ->
     Contains (Str.toLowerCase (make d))
              (Str.toLowerCase (Str.trim (makeQuery p)))).

(** The source cell of the range, under the first alias the row has. *)
Definition rangeSource (r : RawRow) : option string :=
  prop r "Electric Range" ?? prop r "electric_range" ?? prop r "range".

(** The source value of the range reads as a negative number. *)
Definition negativeInSource (r : RawRow) : Prop :=
  exists q, Num.Number (rangeSource r) = Finite q /\ (q < 0)%Q.

(** Grouping, in the words of the specification. *)
Section Grouping.

Variable K : Type.
Variable eqb : K -> K -> bool.

(** How many members of [l] equal [k]. *)
Definition countOf (k : K) (l : list K) : nat :=
  List.length (filter (fun x => eqb x k) l).

(** The distinct members of [l], each at its first occurrence. *)
Fixpoint firstOcc (l : list K) : list K :=
  match l with
  | [] => []
  | x :: l' => x :: filter (fun y => negb (eqb x y)) (firstOcc l')
  end.

(** The position at which [k] is first met in [l]. *)
Fixpoint firstIndex (k : K) (l : list K) : nat :=
  match l with
  | [] => 0
  | x :: l' => if eqb x k then 0 else S (firstIndex k l')
  end.

(** No two members are equal. *)
Definition Distinct (l : list K) : Prop :=
  StronglySorted (fun a b => eqb a b = false) l.

(** One group per distinct key, in order of first occurrence, with the
    number of occurrences of the key. *)
Definition groups (l : list K) : list (K * nat) :=
  map (fun k => (k, countOf k l)) (firstOcc l).

End Grouping.

Definition sumCounts {K : Type} (m : list (K * nat)) : nat :=
  list_sum (map snd m).

(** The members of [data] that [sel] selects, in order. *)
Definition selected {D K : Type} (sel : D -> option K) (data : list D) : list K :=
  flat_map (fun d => match sel d with Some k => [k] | None => [] end) data.

(** [a] ranks before [b]: it has the larger count, or the same count
    and its key is met first in [keys]. *)
Definition rankedBefore (keys : list string) (a b : string * nat) : Prop :=
  snd b < snd a \/
  (snd a = snd b /\
   firstIndex String.eqb (fst a) keys < firstIndex String.eqb (fst b) keys).

(** The key of a record in a distribution: the field, or "Unknown". *)
Definition typeKey (d : Row) : string := orUnknown (type d).
Definition cafvKey (d : Row) : string := orUnknown (cafv d).

(** The record has a range that lies in the bin. *)
Definition rangeIn (b : Bin) (d : Row) : bool :=
  match range d with Some r => inBin r b | None => false end.

(** The record has a range that lies in one of the bins. *)
Definition binned (d : Row) : bool := existsb (fun b => rangeIn b d) bins.

(** The record has the year [y]. *)
Definition hasYear (y : Q) (d : Row) : bool :=
  match year d with Some y' => Qeq_bool y' y | None => false end.

(** The range of a record that counts for the average: present and
    strictly positive. *)
Definition positiveRange (d : Row) : option Q :=
  match range d with
  | Some q => if Num.Qltb 0%Q q then Some q else None
  | None => None
  end.





(** The text starts with a white-space code unit. *)
Definition startsWhite (s : string) : bool :=
  match s with
  | EmptyString => false
  | String c _ => Str.isWhiteSpace c
  end.

(** Every white-space code unit of the text is a single space that
    stands alone: no tab or line break, and no two in a row. *)
Fixpoint singleSpaced (s : string) : bool :=
  match s with
  | EmptyString => true
  | String c s' =>
      (negb (Str.isWhiteSpace c) || (Ascii.eqb c " " && negb (startsWhite s')))
      && singleSpaced s'
  end.







(** * Properties *)

(** ** Strings *)

Lemma Qltb_lt (x y : Q) : Num.Qltb x y = true <-> (x < y)%Q.
Proof.
  unfold Num.Qltb. rewrite negb_true_iff.
  split; intro H.
  - apply Qnot_le_lt. intro Hle. apply Qle_bool_iff in Hle. congruence.
  - destruct (Qle_bool y x) eqn:E; [|reflexivity].
    apply Qle_bool_iff in E. exfalso. eapply Qlt_not_le; eauto.
Qed.

Lemma Qltb_ge (x y : Q) : Num.Qltb x y = false <-> (y <= x)%Q.
Proof.
  unfold Num.Qltb. rewrite negb_false_iff. apply Qle_bool_iff.
Qed.

Lemma prefix_append (t s : string) :
  prefix t s = true <-> exists post, s = (t ++ post)%string.
Proof.
  revert s. induction t as [|c t IH]; intros s.
  - destruct s; simpl; split; eauto.
  - destruct s as [|c' s]; simpl.
    + split; [discriminate | intros [post H]; discriminate].
    + destruct (ascii_dec c c') as [->|Hne].
      * rewrite IH. split; intros [post H]; exists post; congruence.
      * split; [discriminate | intros [post H]; congruence].
Qed.

Lemma includes_Contains (s t : string) :
  Str.includes s t = true <-> Contains s t.
Proof.
  induction s as [|c s IH].
  - change (Str.includes "" t) with (prefix t "" || false).
    rewrite orb_false_r, prefix_append. split.
    + intros [post H]. exists "", post. exact H.
    + intros [pre [post H]]. destruct pre; simpl in H.
      * eauto.
      * discriminate.
  - change (Str.includes (String c s) t)
      with (prefix t (String c s) || Str.includes s t).
    rewrite orb_true_iff, IH, prefix_append. split.
    + intros [[post H] | [pre [post H]]].
      * exists "", post. exact H.
      * exists (String c pre), post. simpl. congruence.
    + intros [pre [post H]]. destruct pre as [|c' pre]; simpl in H.
      * left. eauto.
      * right. exists pre, post. congruence.
Qed.

Lemma toLowerCase_empty (s : string) : Str.toLowerCase s = "" <-> s = "".
Proof. destruct s; simpl; split; congruence. Qed.

Lemma truthy_nonempty (s : string) : Str.truthy s = true <-> s <> "".
Proof. destruct s; simpl; split; congruence. Qed.

(** ** The filtered set *)

Lemma keep_spec (p : FilterParams) (d : Row) :
  keep (fst (yearRange p)) (snd (yearRange p)) (stateFilter p) (typeFilter p)
       (Str.toLowerCase (Str.trim (makeQuery p))) d = true
  <-> FilterPredicate p d.
Proof.
  unfold keep, FilterPredicate.
  set (yMin := fst (yearRange p)). set (yMax := snd (yearRange p)).
  set (mq := Str.toLowerCase (Str.trim (makeQuery p))).
  assert (Hy : (isFiniteField (year d) &&
                match year d with
                | Some y => Num.Qltb y yMin || Num.Qltb yMax y
                | None => false
                end) = false
               <-> (forall y, year d = Some y -> (yMin <= y)%Q /\ (y <= yMax)%Q)).
  { destruct (year d) as [y|]; simpl.
    - rewrite orb_false_iff, !Qltb_ge. split.
      + intros H y' [= <-]. exact H.
      + intros H. apply H. reflexivity.
    - split; [intros _ y' [=] | reflexivity]. }
  assert (Hs : (negb (stateFilter p =? "ALL") && negb (state d =? stateFilter p)) = false
               <-> (stateFilter p <> "ALL" -> state d = stateFilter p)).
  { destruct (String.eqb_spec (stateFilter p) "ALL");
      destruct (String.eqb_spec (state d) (stateFilter p)); simpl;
      split; intros; try reflexivity; try congruence; try tauto. }
  assert (Ht : (negb (typeFilter p =? "ALL") && negb (type d =? typeFilter p)) = false
               <-> (typeFilter p <> "ALL" -> type d = typeFilter p)).
  { destruct (String.eqb_spec (typeFilter p) "ALL");
      destruct (String.eqb_spec (type d) (typeFilter p)); simpl;
      split; intros; try reflexivity; try congruence; try tauto. }
  assert (Hm : (Str.truthy mq && negb (Str.includes (Str.toLowerCase (make d)) mq)) = false
               <-> (Str.trim (makeQuery p) <> "" ->
                    Contains (Str.toLowerCase (make d)) mq)).
  { rewrite <- includes_Contains, <- (toLowerCase_empty (Str.trim (makeQuery p))).
    fold mq. rewrite <- truthy_nonempty.
    destruct (Str.truthy mq); destruct (Str.includes _ mq); simpl;
      split; intros; try reflexivity; try congruence; try tauto.
    discriminate H; reflexivity. }
  rewrite <- Hy, <- Hs, <- Ht, <- Hm.
  destruct (isFiniteField (year d) && _); [split; [discriminate | intros [[=] _]] |].
  destruct (negb (stateFilter p =? "ALL") && _);
    [split; [discriminate | intros (_ & [=] & _)] |].
  destruct (negb (typeFilter p =? "ALL") && _);
    [split; [discriminate | intros (_ & _ & [=] & _)] |].
  destruct (Str.truthy mq && _);
    [split; [discriminate | intros (_ & _ & _ & [=])] |].
  tauto.
Qed.

Lemma data_is_filtered_subsequence_aux (raw : list Row) (p : FilterParams) :
  (forall d, keep (fst (yearRange p)) (snd (yearRange p)) (stateFilter p)
                  (typeFilter p) (Str.toLowerCase (Str.trim (makeQuery p))) d
             = true <-> FilterPredicate p d) /\
  data raw p
  = filter (keep (fst (yearRange p)) (snd (yearRange p)) (stateFilter p)
                 (typeFilter p) (Str.toLowerCase (Str.trim (makeQuery p)))) raw.
Proof.
  split.
  - intros d. apply keep_spec.
  - unfold data. destruct (yearRange p) as [yMin yMax]. reflexivity.
Qed.

(** C1. The working subset is the subsequence of the records, in their
    order, that satisfy the filter predicate: a present year lies in
    [yearRange] (bounds included) and an absent year passes; the state
    and the type equal their filter unless it is "ALL"; the lower-cased
    make contains the lower-cased trimmed query unless that is empty. *)
Theorem data_is_filtered_subsequence (raw : list Row) (p : FilterParams) :
  exists sat : Row -> bool,
    (forall d, sat d = true <-> FilterPredicate p d) /\
    data raw p = filter sat raw.
Proof.
  exists (keep (fst (yearRange p)) (snd (yearRange p)) (stateFilter p)
               (typeFilter p) (Str.toLowerCase (Str.trim (makeQuery p)))).
  apply data_is_filtered_subsequence_aux.
Qed.

(** ** The normalizer *)

Lemma finiteOrNull_None (x : number) :
  finiteOrNull x = None <-> Num.isFinite x = false.
Proof. destruct x; simpl; split; congruence. Qed.

Lemma range_parseCsvRow (r : RawRow) :
  range (parseCsvRow r) = finiteOrNull (Num.Number (rangeSource r)).
Proof. reflexivity. Qed.

(** C2, as the specification words it, fails: a negative source value
    is a finite number and stays in the record. *)
Lemma negative_range_is_kept :
  let r := [("Electric Range", "-5")] in
  negativeInSource r /\ range (parseCsvRow r) = Some (-5)%Q /\
  ~ (negativeInSource r -> range (parseCsvRow r) = None).
Proof.
  assert (Hneg : negativeInSource [("Electric Range", "-5")]).
  { exists (-5)%Q. split; [reflexivity | reflexivity]. }
  simpl. split; [exact Hneg | split; [reflexivity |]].
  intros H. specialize (H Hneg). discriminate H.
Qed.

(** C2, amended.  The normalizer is total: it yields one record per raw
    row, whatever the cells hold.  The range of the record is absent
    exactly when the source cell is missing or does not convert to a
    finite number; a finite value, negative ones included, is kept as it
    is. *)
Theorem parseCsvRows_total_range_finite (rows : list RawRow) :
  List.length (parseCsvRows rows) = List.length rows /\
  (forall i r, nth_error rows i = Some r ->
     nth_error (parseCsvRows rows) i = Some (parseCsvRow r)) /\
  (forall r,
     (range (parseCsvRow r) = None
        <-> Num.isFinite (Num.Number (rangeSource r)) = false) /\
     (forall q, Num.Number (rangeSource r) = Finite q ->
        range (parseCsvRow r) = Some q)).
Proof.
  unfold parseCsvRows. split; [apply length_map | split].
  - intros i r H. rewrite nth_error_map, H. reflexivity.
  - intros r. rewrite range_parseCsvRow. split.
    + apply finiteOrNull_None.
    + intros q ->. reflexivity.
Qed.

(** ** Maps and sets as insertion-ordered lists *)

Section GroupingFacts.

Variable K : Type.
Variable eqb : K -> K -> bool.
Hypothesis eqb_refl : forall a, eqb a a = true.
Hypothesis eqb_sym : forall a b, eqb a b = eqb b a.
Hypothesis eqb_trans :
  forall a b c, eqb a b = true -> eqb b c = true -> eqb a c = true.

Lemma eqb_false_l a b c : eqb a b = true -> eqb a c = false -> eqb b c = false.
Proof.
  intros Hab Hac. destruct (eqb b c) eqn:E; [|reflexivity].
  rewrite (eqb_trans Hab E) in Hac. discriminate.
Qed.

Lemma has_false (s : list K) (x : K) :
  JS.has eqb s x = false <-> Forall (fun k => eqb k x = false) s.
Proof.
  induction s as [|k s IH]; simpl.
  - split; [constructor | reflexivity].
  - rewrite orb_false_iff, IH. split.
    + intros [H1 H2]. constructor; assumption.
    + intros H. inversion H; subst. split; assumption.
Qed.

Lemma has_filter_neq (s : list K) (x y : K) :
  eqb x y = false ->
  JS.has eqb (filter (fun z => negb (eqb x z)) s) y = JS.has eqb s y.
Proof.
  intros Hxy. induction s as [|k s IH]; simpl; [reflexivity|].
  destruct (eqb x k) eqn:E; simpl.
  - rewrite IH. rewrite (eqb_false_l E Hxy). reflexivity.
  - rewrite IH. reflexivity.
Qed.

Lemma has_firstOcc (l : list K) (x : K) :
  JS.has eqb (firstOcc eqb l) x = JS.has eqb l x.
Proof.
  induction l as [|k l IH]; simpl; [reflexivity|].
  destruct (eqb k x) eqn:E; simpl; [reflexivity|].
  rewrite has_filter_neq by assumption. exact IH.
Qed.

Lemma firstOcc_snoc (l : list K) (x : K) :
  firstOcc eqb (l ++ [x]) =
  if JS.has eqb l x then firstOcc eqb l else firstOcc eqb l ++ [x].
Proof.
  induction l as [|k l IH]; simpl; [reflexivity|].
  rewrite IH. destruct (eqb k x) eqn:E; simpl.
  - destruct (JS.has eqb l x); [reflexivity|].
    rewrite filter_app. simpl. rewrite E. simpl. rewrite app_nil_r. reflexivity.
  - destruct (JS.has eqb l x); [reflexivity|].
    rewrite filter_app. simpl. rewrite E. reflexivity.
Qed.

Lemma Distinct_filter (f : K -> bool) (l : list K) :
  Distinct eqb l -> Distinct eqb (filter f l).
Proof.
  unfold Distinct. induction 1 as [|a l Hl IH Ha]; simpl; [constructor|].
  destruct (f a); [|exact IH].
  constructor; [exact IH|].
  rewrite Forall_forall in *. intros b Hb.
  apply filter_In in Hb. apply Ha, Hb.
Qed.

Lemma firstOcc_Distinct (l : list K) : Distinct eqb (firstOcc eqb l).
Proof.
  induction l as [|k l IH]; simpl; [constructor|].
  constructor.
  - apply Distinct_filter, IH.
  - rewrite Forall_forall. intros b Hb. apply filter_In in Hb.
    destruct Hb as [_ Hb]. apply negb_true_iff in Hb. exact Hb.
Qed.

Lemma countOf_snoc (k x : K) (l : list K) :
  countOf eqb k (l ++ [x]) = countOf eqb k l + (if eqb x k then 1 else 0).
Proof.
  unfold countOf. rewrite filter_app, length_app. simpl.
  destruct (eqb x k); reflexivity.
Qed.

Lemma countOf_absent (x : K) (l : list K) :
  JS.has eqb l x = false -> countOf eqb x l = 0.
Proof.
  unfold countOf. induction l as [|k l IH]; simpl; [reflexivity|].
  rewrite orb_false_iff. intros [E H]. rewrite E. apply IH, H.
Qed.

(** One more occurrence of [x], on a map that holds one count per
    distinct key. *)
Lemma bump_counts (f : K -> nat) (ks : list K) (x : K) :
  Distinct eqb ks ->
  JS.bump eqb (map (fun k => (k, f k)) ks) x =
  if JS.has eqb ks x
  then map (fun k => (k, f k + (if eqb k x then 1 else 0))) ks
  else map (fun k => (k, f k)) ks ++ [(x, 1)].
Proof.
  unfold JS.bump. induction 1 as [|k ks Hks IH Hk]; simpl; [reflexivity|].
  destruct (eqb k x) eqn:E; simpl.
  - f_equal. apply map_ext_in. intros k' Hin.
    rewrite Forall_forall in Hk. specialize (Hk _ Hin).
    assert (E' : eqb k' x = false).
    { destruct (eqb k' x) eqn:E'; [|reflexivity].
      rewrite eqb_sym in E'. rewrite (eqb_trans E E') in Hk. discriminate. }
    rewrite E', Nat.add_0_r. reflexivity.
  - rewrite IH. rewrite Nat.add_0_r.
    destruct (JS.has eqb ks x); reflexivity.
Qed.

(** The map that counts the members of [l] one by one holds the groups
    of [l]. *)
Lemma tally_groups (l : list K) :
  fold_left (JS.bump eqb) l [] = groups eqb l.
Proof.
  unfold groups. induction l as [|x l IH] using rev_ind; [reflexivity|].
  rewrite fold_left_app. simpl. rewrite IH.
  rewrite bump_counts by apply firstOcc_Distinct.
  rewrite has_firstOcc, firstOcc_snoc.
  destruct (JS.has eqb l x) eqn:Hx.
  - apply map_ext. intros k. rewrite countOf_snoc, (eqb_sym x k). reflexivity.
  - rewrite map_app. simpl. f_equal.
    + apply map_ext_in. intros k Hin. rewrite countOf_snoc.
      rewrite <- has_firstOcc in Hx. apply has_false in Hx.
      rewrite Forall_forall in Hx. specialize (Hx _ Hin).
      rewrite (eqb_sym x k), Hx, Nat.add_0_r. reflexivity.
    + rewrite countOf_snoc, eqb_refl, (countOf_absent _ _ Hx). reflexivity.
Qed.

(** A set built by adding the members of [l] one by one holds the
    distinct members of [l] in order of first occurrence. *)
Lemma SetOf_firstOcc (l : list K) : JS.SetOf eqb l = firstOcc eqb l.
Proof.
  unfold JS.SetOf. induction l as [|x l IH] using rev_ind; [reflexivity|].
  rewrite fold_left_app. simpl. rewrite IH. unfold JS.add.
  rewrite has_firstOcc, firstOcc_snoc. reflexivity.
Qed.

End GroupingFacts.

Section CountingFacts.

Variable K : Type.
Variable eqb : K -> K -> bool.

Lemma sumCounts_cons (e : K * nat) (m : list (K * nat)) :
  sumCounts (e :: m) = snd e + sumCounts m.
Proof. reflexivity. Qed.

Lemma sumCounts_app (m m' : list (K * nat)) :
  sumCounts (m ++ m') = sumCounts m + sumCounts m'.
Proof. unfold sumCounts. rewrite map_app, list_sum_app. reflexivity. Qed.

(** Each call of [bump] adds one to the sum of the counts, whatever the
    keys are. *)
Lemma sumCounts_bump (m : list (K * nat)) (x : K) :
  sumCounts (JS.bump eqb m x) = sumCounts m + 1.
Proof.
  unfold JS.bump. induction m as [|[k v] m IH]; simpl; [reflexivity|].
  destruct (eqb k x); rewrite !sumCounts_cons; simpl.
  - lia.
  - rewrite IH. lia.
Qed.

Lemma sumCounts_tally (l : list K) (m : list (K * nat)) :
  sumCounts (fold_left (JS.bump eqb) l m) = sumCounts m + List.length l.
Proof.
  revert m. induction l as [|x l IH]; intros m; simpl; [lia|].
  rewrite IH, sumCounts_bump. lia.
Qed.

(** A loop that counts some members and skips the others is the count
    of the selected members. *)
Lemma fold_left_selected (D : Type) (sel : D -> option K)
    (step : list (K * nat) -> D -> list (K * nat)) :
  (forall m d, step m d = match sel d with
                          | Some k => JS.bump eqb m k
                          | None => m
                          end) ->
  forall data m,
    fold_left step data m = fold_left (JS.bump eqb) (selected sel data) m.
Proof.
  intros Hstep data. induction data as [|d data IH]; intros m; simpl; [reflexivity|].
  rewrite fold_left_app, IH, Hstep.
  destruct (sel d); reflexivity.
Qed.

Lemma selected_length (D : Type) (sel : D -> option K) (data : list D) :
  List.length (selected sel data) <= List.length data.
Proof.
  induction data as [|d data IH]; simpl; [lia|].
  rewrite length_app. destruct (sel d); simpl; lia.
Qed.

Lemma selected_all (D : Type) (sel : D -> option K) (data : list D) :
  List.length (selected sel data) = List.length data
  <-> forall d, In d data -> sel d <> None.
Proof.
  induction data as [|d data IH]; simpl.
  - split; [intros _ d [] | reflexivity].
  - rewrite length_app. pose proof (selected_length sel data) as Hle.
    destruct (sel d) eqn:E; simpl.
    + split.
      * intros H d' [<-|Hin]; [congruence|]. apply IH; [lia | exact Hin].
      * intros H. f_equal. apply IH. intros d' Hin. apply H. right. exact Hin.
    + split; [lia|]. intros H. exfalso. apply (H d); [left; reflexivity | exact E].
Qed.

Lemma In_selected (D : Type) (sel : D -> option K) (data : list D) (k : K) :
  In k (selected sel data) <-> exists d, In d data /\ sel d = Some k.
Proof.
  unfold selected. rewrite in_flat_map. split; intros [d [Hin H]]; exists d.
  - destruct (sel d); simpl in H; [destruct H as [->|[]]; auto | destruct H].
  - rewrite H. simpl. auto.
Qed.

End CountingFacts.

Lemma StronglySorted_impl_in (A : Type) (R R' : A -> A -> Prop) (l : list A) :
  (forall a b, In a l -> In b l -> R a b -> R' a b) ->
  StronglySorted R l -> StronglySorted R' l.
Proof.
  intros Himp H. induction H as [|a l Hl IH Ha]; constructor.
  - apply IH. intros x y Hx Hy. apply Himp; right; assumption.
  - rewrite Forall_forall in *. intros b Hb.
    apply Himp; [left; reflexivity | right; exact Hb | apply Ha, Hb].
Qed.

Lemma StronglySorted_filter (A : Type) (R : A -> A -> Prop) (f : A -> bool)
    (l : list A) :
  StronglySorted R l -> StronglySorted R (filter f l).
Proof.
  induction 1 as [|a l Hl IH Ha]; simpl; [constructor|].
  destruct (f a); [|exact IH].
  constructor; [exact IH|].
  rewrite Forall_forall in *. intros b Hb. apply filter_In in Hb. apply Ha, Hb.
Qed.

Lemma In_firstn (A : Type) (n : nat) (l : list A) (x : A) :
  In x (firstn n l) -> In x l.
Proof.
  intros H. rewrite <- (firstn_skipn n l). apply in_or_app. left. exact H.
Qed.

Lemma StronglySorted_firstn (A : Type) (R : A -> A -> Prop) (n : nat)
    (l : list A) :
  StronglySorted R l -> StronglySorted R (firstn n l).
Proof.
  intros H. revert n. induction H as [|a l Hl IH Ha]; intros [|n]; simpl;
    try constructor.
  - apply IH.
  - rewrite Forall_forall in *. intros b Hb. apply Ha.
    eapply In_firstn; eauto.
Qed.

Lemma StronglySorted_map (A B : Type) (R : B -> B -> Prop) (f : A -> B)
    (l : list A) :
  StronglySorted (fun a b => R (f a) (f b)) l <-> StronglySorted R (map f l).
Proof.
  induction l as [|a l IH]; simpl.
  - split; constructor.
  - split; intros H; inversion H; subst; constructor;
      try (apply IH; assumption).
    + rewrite Forall_map. assumption.
    + rewrite Forall_map in *. assumption.
Qed.

Section FirstIndexFacts.

Variable K : Type.
Variable eqb : K -> K -> bool.
Hypothesis eqb_refl : forall a, eqb a a = true.
Variable f : K -> bool.
Hypothesis f_compat : forall a b, eqb a b = true -> f a = f b.

(** The distinct selected members come in the order in which they are
    first met in the whole list. *)
Lemma firstOcc_firstIndex (l : list K) :
  StronglySorted (fun a b => firstIndex eqb a l < firstIndex eqb b l)
                 (firstOcc eqb (filter f l)).
Proof.
  induction l as [|x l IH]; simpl; [constructor|].
  assert (Hshift : forall a, In a (firstOcc eqb (filter f l)) -> f a = true).
  { intros a Ha.
    assert (Hall : forall l', Forall (fun a => f a = true) l' ->
              Forall (fun a => f a = true) (firstOcc eqb l')).
    { induction 1; simpl; constructor; [assumption|].
      rewrite Forall_forall in *. intros b Hb. apply filter_In in Hb.
      apply IHForall. apply Hb. }
    specialize (Hall (filter f l)). rewrite !Forall_forall in Hall.
    apply Hall; [|exact Ha]. intros b Hb. apply filter_In in Hb. apply Hb. }
  destruct (f x) eqn:Efx; simpl.
  - constructor.
    + apply StronglySorted_filter with (f := fun y => negb (eqb x y)) in IH.
      revert IH. apply StronglySorted_impl_in.
      intros a b Ha Hb Hlt.
      apply filter_In in Ha, Hb. destruct Ha as [_ Ha], Hb as [_ Hb].
      apply negb_true_iff in Ha, Hb. rewrite Ha, Hb. lia.
    + rewrite Forall_forall. intros b Hb. apply filter_In in Hb.
      destruct Hb as [_ Hb]. apply negb_true_iff in Hb.
      rewrite eqb_refl, Hb. lia.
  - revert IH. apply StronglySorted_impl_in.
    intros a b Ha Hb Hlt.
    assert (Ea : eqb x a = false).
    { destruct (eqb x a) eqn:E; [|reflexivity].
      apply f_compat in E. rewrite (Hshift _ Ha) in E. congruence. }
    assert (Eb : eqb x b = false).
    { destruct (eqb x b) eqn:E; [|reflexivity].
      apply f_compat in E. rewrite (Hshift _ Hb) in E. congruence. }
    rewrite Ea, Eb. lia.
Qed.

End FirstIndexFacts.

(** ** Sorting *)

Section SortFacts.

Variable A : Type.
Variable cmp : A -> A -> Q.

(** [cmp a b <= 0]: the comparator lets [a] stand before [b]. *)
Hypothesis cmp_total : forall a b, ~ (cmp a b <= 0)%Q -> (cmp b a <= 0)%Q.
Hypothesis cmp_trans :
  forall a b c, (cmp a b <= 0)%Q -> (cmp b c <= 0)%Q -> (cmp a c <= 0)%Q.

(** The order of the members before the sort. *)
Variable before : A -> A -> Prop.

Lemma insert_Permutation (x : A) (l : list A) :
  Permutation (JS.insert cmp x l) (x :: l).
Proof.
  induction l as [|y l IH]; simpl; [reflexivity|].
  destruct (Num.Qltb 0 (cmp x y)); [|reflexivity].
  rewrite IH. apply perm_swap.
Qed.

Lemma sort_Permutation (l : list A) : Permutation (JS.sort cmp l) l.
Proof.
  induction l as [|x l IH]; simpl; [reflexivity|].
  rewrite insert_Permutation. constructor. exact IH.
Qed.

Lemma insert_ranked (x : A) (l : list A) :
  StronglySorted
    (fun a b => (cmp a b <= 0)%Q /\ ((cmp b a <= 0)%Q -> before a b)) l ->
  Forall (before x) l ->
  StronglySorted
    (fun a b => (cmp a b <= 0)%Q /\ ((cmp b a <= 0)%Q -> before a b))
    (JS.insert cmp x l).
Proof.
  induction 1 as [|y l Hl IH Hy]; intros Hx; simpl.
  - repeat constructor.
  - inversion Hx as [|? ? Hxy Hxl]; subst.
    destruct (Num.Qltb 0 (cmp x y)) eqn:E.
    + apply Qltb_lt in E.
      assert (Hnle : ~ (cmp x y <= 0)%Q) by (intro; lra).
      constructor; [apply IH; exact Hxl|].
      eapply Permutation_Forall;
        [symmetry; apply insert_Permutation|].
      constructor; [|exact Hy].
      split; [apply cmp_total; exact Hnle | intro; contradiction].
    + apply Qltb_ge in E.
      constructor; [constructor; assumption|].
      constructor; [split; [exact E | intros _; exact Hxy]|].
      rewrite Forall_forall in *. intros z Hz. split.
      * apply cmp_trans with y; [exact E | apply (Hy z Hz)].
      * intros _. apply Hxl, Hz.
Qed.

(** The sort is stable: after it [a] stands before [b] only if the
    comparator allows it, and where the comparator allows both orders,
    only if [a] was before [b]. *)
Lemma sort_ranked (l : list A) :
  StronglySorted before l ->
  StronglySorted
    (fun a b => (cmp a b <= 0)%Q /\ ((cmp b a <= 0)%Q -> before a b))
    (JS.sort cmp l).
Proof.
  induction 1 as [|x l Hl IH Hx]; simpl; [constructor|].
  apply insert_ranked; [exact IH|].
  eapply Permutation_Forall; [symmetry; apply sort_Permutation | exact Hx].
Qed.

End SortFacts.

(** ** Groups keyed by strings *)

Lemma string_eqb_trans (a b c : string) :
  (a =? b) = true -> (b =? c) = true -> (a =? c) = true.
Proof. rewrite !String.eqb_eq. congruence. Qed.

Lemma has_In (s : list string) (x : string) :
  JS.has String.eqb s x = true <-> In x s.
Proof.
  induction s as [|k s IH]; simpl; [split; [discriminate | tauto]|].
  rewrite orb_true_iff, IH, String.eqb_eq. tauto.
Qed.

Lemma Distinct_NoDup (l : list string) : Distinct String.eqb l -> NoDup l.
Proof.
  induction 1 as [|a l Hl IH Ha]; constructor; [|exact IH].
  intros Hin. rewrite Forall_forall in Ha. specialize (Ha _ Hin).
  rewrite String.eqb_refl in Ha. discriminate.
Qed.

Lemma In_firstOcc (l : list string) (x : string) :
  In x (firstOcc String.eqb l) <-> In x l.
Proof.
  rewrite <- !has_In.
  rewrite (has_firstOcc String.eqb string_eqb_trans). reflexivity.
Qed.

Lemma NoDup_firstOcc (l : list string) : NoDup (firstOcc String.eqb l).
Proof. apply Distinct_NoDup, firstOcc_Distinct. Qed.

Lemma groups_keys (K : Type) (eqb : K -> K -> bool) (l : list K) :
  map fst (groups eqb l) = firstOcc eqb l.
Proof.
  unfold groups. rewrite map_map. simpl. apply map_id.
Qed.

Lemma In_groups (l : list string) (k : string) (c : nat) :
  In (k, c) (groups String.eqb l) <-> In k l /\ c = countOf String.eqb k l.
Proof.
  unfold groups. rewrite in_map_iff. split.
  - intros [k' [Heq Hin]]. inversion Heq; subst.
    rewrite In_firstOcc in Hin. split; [exact Hin | reflexivity].
  - intros [Hin ->]. exists k. split; [reflexivity | apply In_firstOcc, Hin].
Qed.

Lemma countOf_map (D : Type) (key : D -> string) (k : string) (data : list D) :
  countOf String.eqb k (map key data)
  = List.length (filter (fun d => key d =? k) data).
Proof.
  unfold countOf. induction data as [|d data IH]; simpl; [reflexivity|].
  destruct (key d =? k); simpl; rewrite IH; reflexivity.
Qed.

Lemma countOf_filter (f : string -> bool) (k : string) (l : list string) :
  f k = true ->
  countOf String.eqb k (filter f l) = countOf String.eqb k l.
Proof.
  intros Hk. unfold countOf. induction l as [|x l IH]; simpl; [reflexivity|].
  destruct (f x) eqn:Ef; simpl.
  - destruct (x =? k); simpl; rewrite IH; reflexivity.
  - destruct (String.eqb_spec x k) as [->|_]; [congruence | exact IH].
Qed.

Lemma countOf_positive (l : list string) (k : string) :
  In k l -> 1 <= countOf String.eqb k l.
Proof.
  unfold countOf. induction l as [|x l IH]; simpl; [tauto|].
  intros [->|Hin].
  - rewrite String.eqb_refl. simpl. lia.
  - destruct (x =? k); simpl; [lia | apply IH, Hin].
Qed.

Lemma sumCounts_groups (l : list string) :
  sumCounts (groups String.eqb l) = List.length l.
Proof.
  rewrite <- (tally_groups String.eqb String.eqb_refl String.eqb_sym string_eqb_trans).
  rewrite sumCounts_tally. reflexivity.
Qed.

Lemma sumCounts_Permutation (K : Type) (m m' : list (K * nat)) :
  Permutation m m' -> sumCounts m = sumCounts m'.
Proof.
  intros H. unfold sumCounts. apply Permutation_list_sum, Permutation_map, H.
Qed.

Lemma selected_filter_map (D : Type) (key : D -> string) (f : string -> bool)
    (data : list D) :
  selected (fun d => if f (key d) then Some (key d) else None) data
  = filter f (map key data).
Proof.
  induction data as [|d data IH]; simpl; [reflexivity|].
  rewrite IH. destruct (f (key d)); reflexivity.
Qed.

Lemma selected_map (D K : Type) (key : D -> K) (data : list D) :
  selected (fun d => Some (key d)) data = map key data.
Proof.
  induction data as [|d data IH]; simpl; [reflexivity|].
  rewrite IH. reflexivity.
Qed.

(** ** The distributions *)

Lemma orUnknown_spec (s : string) :
  orUnknown s = if s =? "" then "Unknown" else s.
Proof. destruct s; reflexivity. Qed.

Lemma typeDist_groups (data : list Row) :
  typeDist data = groups String.eqb (map typeKey data).
Proof.
  unfold typeDist.
  rewrite (fold_left_selected String.eqb (fun d => Some (typeKey d)))
    by reflexivity.
  rewrite selected_map.
  apply (tally_groups String.eqb String.eqb_refl String.eqb_sym string_eqb_trans).
Qed.

Lemma cafvCounts_groups (data : list Row) :
  cafvCounts data = groups String.eqb (map cafvKey data).
Proof.
  unfold cafvCounts.
  rewrite (fold_left_selected String.eqb (fun d => Some (cafvKey d)))
    by reflexivity.
  rewrite selected_map.
  apply (tally_groups String.eqb String.eqb_refl String.eqb_sym string_eqb_trans).
Qed.

Lemma makeCounts_groups (data : list Row) :
  makeCounts data = groups String.eqb (filter Str.truthy (map make data)).
Proof.
  unfold makeCounts.
  rewrite (fold_left_selected String.eqb
             (fun d => if Str.truthy (make d) then Some (make d) else None)).
  - rewrite selected_filter_map.
    apply (tally_groups String.eqb String.eqb_refl String.eqb_sym string_eqb_trans).
  - intros m d. destruct (Str.truthy (make d)); reflexivity.
Qed.

(** C10. The type distribution has one group for each distinct key, the
    key of a record being its type or "Unknown" when the type is empty:
    every record falls in exactly one group, the count of a group is the
    number of its records, the counts add up to the size of the working
    subset, and the groups stand in the order in which their keys are
    first met. *)
Theorem typeDist_partition (data : list Row) :
  typeDist data = groups String.eqb (map typeKey data) /\
  map fst (typeDist data) = firstOcc String.eqb (map typeKey data) /\
  NoDup (map fst (typeDist data)) /\
  (forall d, typeKey d = if type d =? "" then "Unknown" else type d) /\
  (forall d, In d data -> In (typeKey d) (map fst (typeDist data))) /\
  (forall k c, In (k, c) (typeDist data) ->
     1 <= c /\ c = List.length (filter (fun d => typeKey d =? k) data)) /\
  sumCounts (typeDist data) = List.length data /\
  StronglySorted
    (fun a b => firstIndex String.eqb (fst a) (map typeKey data)
                < firstIndex String.eqb (fst b) (map typeKey data))
    (typeDist data).
Proof.
  rewrite typeDist_groups, groups_keys.
  repeat split.
  - apply NoDup_firstOcc.
  - intros d. apply orUnknown_spec.
  - intros d Hin. apply In_firstOcc, in_map, Hin.
  - apply In_groups in H. destruct H as [Hin ->]. apply countOf_positive, Hin.
  - apply In_groups in H. destruct H as [_ ->]. apply countOf_map.
  - rewrite sumCounts_groups. apply length_map.
  - apply StronglySorted_map with (f := fst)
      (R := fun a b => firstIndex String.eqb a (map typeKey data)
                       < firstIndex String.eqb b (map typeKey data)).
    rewrite groups_keys.
    pose proof (firstOcc_firstIndex String.eqb String.eqb_refl (fun _ => true)
                  (fun _ _ _ => eq_refl) (map typeKey data)) as H.
    rewrite forallb_filter_id in H by (apply forallb_forall; reflexivity).
    exact H.
Qed.

(** ** Ranking by count *)

Lemma ofNat_le (n m : nat) : (ofNat n <= ofNat m)%Q <-> n <= m.
Proof.
  unfold ofNat. rewrite <- Zle_Qle. symmetry. apply Nat2Z.inj_le.
Qed.

Lemma byCountDesc_le (a b : string * nat) :
  (byCountDesc a b <= 0)%Q <-> snd b <= snd a.
Proof.
  unfold byCountDesc. rewrite <- ofNat_le. split; intro; lra.
Qed.

Lemma byCountDesc_total (a b : string * nat) :
  ~ (byCountDesc a b <= 0)%Q -> (byCountDesc b a <= 0)%Q.
Proof. rewrite !byCountDesc_le. lia. Qed.

Lemma byCountDesc_trans (a b c : string * nat) :
  (byCountDesc a b <= 0)%Q -> (byCountDesc b c <= 0)%Q ->
  (byCountDesc a c <= 0)%Q.
Proof. rewrite !byCountDesc_le. lia. Qed.

(** Sorting the groups of the selected keys by falling count ranks them:
    larger counts first, and among equal counts the key met first. *)
Lemma sort_groups_ranked (f : string -> bool) (keys : list string) :
  StronglySorted (rankedBefore keys)
    (JS.sort byCountDesc (groups String.eqb (filter f keys))).
Proof.
  pose proof (firstOcc_firstIndex String.eqb String.eqb_refl f) as Hfirst.
  assert (Hbefore :
    StronglySorted
      (fun a b : string * nat =>
         firstIndex String.eqb (fst a) keys < firstIndex String.eqb (fst b) keys)
      (groups String.eqb (filter f keys))).
  { apply StronglySorted_map with (f := fst)
      (R := fun a b => firstIndex String.eqb a keys < firstIndex String.eqb b keys).
    rewrite groups_keys. apply Hfirst.
    intros a b E. apply String.eqb_eq in E. congruence. }
  apply (sort_ranked byCountDesc byCountDesc_total byCountDesc_trans) in Hbefore.
  revert Hbefore. apply StronglySorted_impl_in.
  intros a b _ _ [Hab Hba]. rewrite byCountDesc_le in Hab, Hba.
  unfold rankedBefore.
  destruct (Nat.eq_dec (snd a) (snd b)) as [E|E].
  - right. split; [exact E | apply Hba; lia].
  - left. lia.
Qed.

Lemma rankedBefore_count (keys : list string) (a b : string * nat) :
  rankedBefore keys a b -> snd b <= snd a.
Proof. unfold rankedBefore. lia. Qed.

(** C4. The top makes are the first ten groups of the ranking of the
    makes: one group for each distinct non-empty make with the number of
    its records, larger counts first, and among equal counts the make met
    first in the working subset.  So there are at most ten entries, in
    non-increasing order of count. *)
Theorem topMakes_ranking (data : list Row) :
  (exists ranking,
     Permutation ranking
       (groups String.eqb (filter Str.truthy (map make data))) /\
     StronglySorted (rankedBefore (map make data)) ranking /\
     topMakes data = firstn 10 ranking) /\
  List.length (topMakes data) <= 10 /\
  StronglySorted (fun a b => snd b <= snd a) (topMakes data) /\
  StronglySorted (rankedBefore (map make data)) (topMakes data) /\
  NoDup (map fst (topMakes data)) /\
  (forall m c, In (m, c) (topMakes data) ->
     m <> "" /\ 1 <= c /\
     c = List.length (filter (fun d => make d =? m) data)).
Proof.
  unfold topMakes, JS.slice0. rewrite makeCounts_groups.
  set (gs := groups String.eqb (filter Str.truthy (map make data))).
  pose proof (sort_groups_ranked Str.truthy (map make data)) as Hranked.
  fold gs in Hranked.
  pose proof (sort_Permutation byCountDesc gs) as Hperm.
  assert (Htop : StronglySorted (rankedBefore (map make data))
                   (firstn 10 (JS.sort byCountDesc gs)))
    by (apply StronglySorted_firstn, Hranked).
  split; [|split; [|split; [|split; [|split]]]].
  - exists (JS.sort byCountDesc gs). auto.
  - apply firstn_le_length.
  - revert Htop. apply StronglySorted_impl_in.
    intros a b _ _. apply rankedBefore_count.
  - exact Htop.
  - assert (Hnd : NoDup (map fst (JS.sort byCountDesc gs))).
    { apply Permutation_NoDup with (map fst gs).
      - symmetry. apply Permutation_map, Hperm.
      - unfold gs. rewrite groups_keys. apply NoDup_firstOcc. }
    rewrite <- (firstn_skipn 10 (JS.sort byCountDesc gs)), map_app in Hnd.
    apply NoDup_app_remove_r in Hnd. exact Hnd.
  - intros m c Hin. apply In_firstn in Hin.
    apply (Permutation_in _ Hperm) in Hin. unfold gs in Hin.
    apply In_groups in Hin. destruct Hin as [Hin ->].
    apply filter_In in Hin. destruct Hin as [Hin Hne].
    split; [apply truthy_nonempty, Hne|]. split.
    + apply countOf_positive. apply filter_In. auto.
    + rewrite countOf_filter by exact Hne. apply countOf_map.
Qed.

Lemma fold_left_sumCounts (K : Type) (m : list (K * nat)) (s : nat) :
  fold_left (fun s e => s + snd e) m s = s + sumCounts m.
Proof.
  revert s. induction m as [|e m IH]; intros s; simpl.
  - unfold sumCounts. simpl. lia.
  - rewrite IH, sumCounts_cons. lia.
Qed.

Lemma sumCounts_single (K : Type) (k : K) (c : nat) : sumCounts [(k, c)] = c.
Proof. unfold sumCounts. simpl. lia. Qed.

(** C5. The eligibility distribution groups the records by their
    eligibility text, "Unknown" standing for the empty text, sorts the
    groups by falling count, keeps the first four and appends the group
    "Other" with the sum of the remaining counts when that sum is
    positive.  It has at most five entries and its values add up to the
    size of the working subset. *)
Theorem cafvDist_top4_other (data : list Row) :
  (forall d, cafvKey d = if cafv d =? "" then "Unknown" else cafv d) /\
  (exists sorted,
     Permutation sorted (groups String.eqb (map cafvKey data)) /\
     StronglySorted (fun a b => snd b <= snd a) sorted /\
     cafvDist data =
       firstn 4 sorted ++
       (if (0 <? sumCounts (skipn 4 sorted))%nat
        then [("Other", sumCounts (skipn 4 sorted))] else [])) /\
  List.length (cafvDist data) <= 5 /\
  sumCounts (cafvDist data) = List.length data.
Proof.
  unfold cafvDist, JS.slice0, JS.sliceFrom.
  rewrite cafvCounts_groups, fold_left_sumCounts, Nat.add_0_l.
  set (gs := groups String.eqb (map cafvKey data)).
  set (sorted := JS.sort byCountDesc gs).
  pose proof (sort_Permutation byCountDesc gs) as Hperm. fold sorted in Hperm.
  assert (Hsum : sumCounts (firstn 4 sorted) + sumCounts (skipn 4 sorted)
                 = List.length data).
  { rewrite <- sumCounts_app, firstn_skipn.
    rewrite (sumCounts_Permutation Hperm). unfold gs.
    rewrite sumCounts_groups. apply length_map. }
  split; [|split; [|split]].
  - intros d. apply orUnknown_spec.
  - exists sorted. split; [exact Hperm | split].
    + pose proof (sort_groups_ranked (fun _ => true) (map cafvKey data)) as H.
      rewrite forallb_filter_id in H by (apply forallb_forall; reflexivity).
      revert H. apply StronglySorted_impl_in.
      intros a b _ _. apply rankedBefore_count.
    + destruct (0 <? sumCounts (skipn 4 sorted))%nat;
        [reflexivity | symmetry; apply app_nil_r].
  - pose proof (firstn_le_length 4 sorted) as Hle.
    destruct (0 <? sumCounts (skipn 4 sorted))%nat.
    + rewrite length_app. cbn [List.length]. lia.
    + lia.
  - destruct (0 <? sumCounts (skipn 4 sorted))%nat eqn:E.
    + rewrite sumCounts_app, sumCounts_single. exact Hsum.
    + apply Nat.ltb_ge in E. lia.
Qed.

(** ** The range histogram *)

Lemma filter_length_all (A : Type) (f : A -> bool) (l : list A) :
  List.length (filter f l) <= List.length l /\
  (List.length (filter f l) = List.length l <-> forall x, In x l -> f x = true).
Proof.
  induction l as [|x l [IHle IHeq]]; simpl.
  - split; [lia | split; [intros _ x [] | reflexivity]].
  - destruct (f x) eqn:E; simpl.
    + split; [lia|]. split.
      * intros H y [<-|Hy]; [exact E | apply IHeq; [lia | exact Hy]].
      * intros H. f_equal. apply IHeq. intros y Hy. apply H. right. exact Hy.
    + split; [lia|]. split; [lia|].
      intros H. specialize (H x (or_introl eq_refl)). congruence.
Qed.

Lemma inBin_bounds (r : Q) (b : Bin) :
  inBin r b = true <->
  (min b <= r)%Q /\
  match max b with
  | Finite q => (r <= q)%Q
  | PosInfinity => True
  | _ => False
  end.
Proof.
  unfold inBin, leNumber. rewrite andb_true_iff, Qle_bool_iff.
  destruct (max b); try rewrite Qle_bool_iff; intuition congruence.
Qed.

(** No number lies in two bins. *)
Lemma bins_exclusive :
  StronglySorted (fun b b' => forall r, inBin r b = true -> inBin r b' = false)
                 bins.
Proof.
  unfold bins.
  repeat (constructor; [|
    repeat (constructor;
            [ intros r H; apply inBin_bounds in H; simpl in H;
              destruct (inBin r _) eqn:E; [|reflexivity];
              apply inBin_bounds in E; simpl in E; lra | ]);
    try constructor ]).
  constructor.
Qed.

Lemma countInto_keys (r : Q) (counts : list (Bin * nat)) :
  map fst (countInto r counts) = map fst counts.
Proof.
  induction counts as [|[b c] counts IH]; simpl; [reflexivity|].
  destruct (inBin r b); simpl; [reflexivity | rewrite IH; reflexivity].
Qed.

(** The loop adds one to the bin that holds [r], if there is one. *)
Lemma countInto_spec (r : Q) (counts : list (Bin * nat)) :
  StronglySorted (fun b b' => forall r, inBin r b = true -> inBin r b' = false)
                 (map fst counts) ->
  countInto r counts
  = map (fun bc => (fst bc, snd bc + (if inBin r (fst bc) then 1 else 0))) counts.
Proof.
  induction counts as [|[b c] counts IH]; simpl; intros H; [reflexivity|].
  inversion H as [|? ? Hs Hb]; subst.
  destruct (inBin r b) eqn:E.
  - f_equal. rewrite <- (map_id counts) at 1. apply map_ext_in.
    intros [b' c'] Hin. simpl.
    rewrite Forall_forall in Hb.
    rewrite (Hb b' (in_map fst _ _ Hin) r E), Nat.add_0_r. reflexivity.
  - rewrite Nat.add_0_r, IH by exact Hs. reflexivity.
Qed.

Lemma histStep_keys (counts : list (Bin * nat)) (d : Row) :
  map fst (histStep counts d) = map fst counts.
Proof.
  unfold histStep. destruct (range d); simpl; [apply countInto_keys | reflexivity].
Qed.

Lemma histStep_spec (counts : list (Bin * nat)) (d : Row) :
  StronglySorted (fun b b' => forall r, inBin r b = true -> inBin r b' = false)
                 (map fst counts) ->
  histStep counts d
  = map (fun bc => (fst bc, snd bc + (if rangeIn (fst bc) d then 1 else 0))) counts.
Proof.
  intros H. unfold histStep, rangeIn. destruct (range d) as [r|]; simpl.
  - apply countInto_spec, H.
  - rewrite <- (map_id counts) at 1. apply map_ext. intros [b c]. simpl.
    rewrite Nat.add_0_r. reflexivity.
Qed.

Lemma hist_fold_spec (data : list Row) (counts : list (Bin * nat)) :
  StronglySorted (fun b b' => forall r, inBin r b = true -> inBin r b' = false)
                 (map fst counts) ->
  fold_left histStep data counts
  = map (fun bc => (fst bc,
                    snd bc + List.length (filter (rangeIn (fst bc)) data)))
        counts.
Proof.
  revert counts. induction data as [|d data IH]; intros counts H; simpl.
  - rewrite <- (map_id counts) at 1. apply map_ext. intros [b c]. simpl.
    rewrite Nat.add_0_r. reflexivity.
  - rewrite IH by (rewrite histStep_keys; exact H).
    rewrite histStep_spec by exact H. rewrite map_map. apply map_ext.
    intros [b c]. simpl. destruct (rangeIn b d); simpl; f_equal; lia.
Qed.

Lemma rangeHist_counts (data : list Row) :
  rangeHist data
  = map (fun b => (label b, List.length (filter (rangeIn b) data))) bins.
Proof.
  unfold rangeHist.
  rewrite hist_fold_spec by (rewrite map_map; simpl; apply bins_exclusive).
  rewrite !map_map. reflexivity.
Qed.

Lemma filter_orb_length (A : Type) (f g : A -> bool) (l : list A) :
  (forall x, f x = true -> g x = false) ->
  List.length (filter (fun x => f x || g x) l)
  = List.length (filter f l) + List.length (filter g l).
Proof.
  intros H. induction l as [|x l IH]; simpl; [reflexivity|].
  destruct (f x) eqn:Ef; simpl.
  - rewrite (H x Ef). simpl. rewrite IH. reflexivity.
  - destruct (g x); simpl; rewrite IH; lia.
Qed.

Lemma binned_sum (data : list Row) (bs : list Bin) :
  StronglySorted (fun b b' => forall r, inBin r b = true -> inBin r b' = false)
                 bs ->
  list_sum (map (fun b => List.length (filter (rangeIn b) data)) bs)
  = List.length (filter (fun d => existsb (fun b => rangeIn b d) bs) data).
Proof.
  induction 1 as [|b bs Hs IH Hb]; simpl.
  - induction data; simpl; auto.
  - rewrite IH. symmetry. apply filter_orb_length.
    intros d Hd. apply not_true_iff_false. intros Hex.
    apply existsb_exists in Hex. destruct Hex as [b' [Hin Hb']].
    unfold rangeIn in *. destruct (range d) as [r|]; [|discriminate].
    rewrite Forall_forall in Hb. rewrite (Hb b' Hin r Hd) in Hb'. discriminate.
Qed.

Lemma sumCounts_rangeHist (data : list Row) :
  sumCounts (rangeHist data) = List.length (filter binned data).
Proof.
  rewrite rangeHist_counts. unfold sumCounts. rewrite map_map. simpl.
  apply (binned_sum data bins_exclusive).
Qed.

Lemma binned_spec (d : Row) :
  binned d = true <->
  exists r, range d = Some r /\
    (r == 0 \/ (1 <= r /\ r <= 50) \/ (51 <= r /\ r <= 100) \/
     (101 <= r /\ r <= 200) \/ (201 <= r /\ r <= 300) \/ 301 <= r)%Q.
Proof.
  unfold binned, rangeIn, bins. destruct (range d) as [r|]; simpl.
  - rewrite !orb_true_iff, !inBin_bounds. simpl. split.
    + intros H. exists r. split; [reflexivity|].
      destruct H as [H|[H|[H|[H|[H|[H|H]]]]]]; try discriminate;
        destruct H as [H1 H2]; lra.
    + intros [r' [[= <-] H]].
      destruct H as [H|[H|[H|[H|[H|H]]]]];
        [left | right; left | right; right; left | right; right; right; left
        | right; right; right; right; left
        | right; right; right; right; right; left]; split; lra.
  - split; [discriminate | intros [r [[=] _]]].
Qed.

(** Every non-negative integer lies in a bin. *)
Lemma bins_cover_naturals (z : Z) :
  (0 <= z)%Z -> exists b, In b bins /\ inBin (inject_Z z) b = true.
Proof.
  intros Hz.
  assert (H : (z = 0 \/ 1 <= z <= 50 \/ 51 <= z <= 100 \/ 101 <= z <= 200
               \/ 201 <= z <= 300 \/ 301 <= z)%Z) by lia.
  unfold bins.
  destruct H as [H|[H|[H|[H|[H|H]]]]];
    [ exists (mkBin "0" 0 (Finite 0))
    | exists (mkBin "1–50" 1 (Finite 50))
    | exists (mkBin "51–100" 51 (Finite 100))
    | exists (mkBin "101–200" 101 (Finite 200))
    | exists (mkBin "201–300" 201 (Finite 300))
    | exists (mkBin "301+" 301 PosInfinity) ];
    (split; [simpl; tauto|]);
    apply inBin_bounds; simpl; unfold Qle; simpl; lia.
Qed.

(** C6, as the specification words it, fails: a range that is negative
    or falls between two bins is present and is counted in no bin. *)
Lemma negative_range_in_no_bin :
  (let data := data (parseCsvRows [[("Electric Range", "-5")]]) initialFilter in
   List.length data = 1 /\
   (forall d, In d data -> range d <> None) /\
   sumCounts (rangeHist data) = 0 /\
   ~ (sumCounts (rangeHist data) = List.length data
      <-> (forall d, In d data -> range d <> None))) /\
  (let data := data (parseCsvRows [[("Electric Range", "0.5")]]) initialFilter in
   map range data = [Some (1 # 2)%Q] /\
   sumCounts (rangeHist data) = 0) /\
  (0 <= 1 # 2)%Q /\ forallb (fun b => negb (inBin (1 # 2)%Q b)) bins = true.
Proof.
  split; [|split; [|split]].
  - assert (Hpresent : forall d,
              In d (data (parseCsvRows [[("Electric Range", "-5")]]) initialFilter) ->
              range d <> None).
    { intros d [<-|[]]. discriminate. }
    cbv zeta. split; [reflexivity|]. split; [exact Hpresent|].
    split; [reflexivity|].
    intros [_ H]. specialize (H Hpresent). discriminate H.
  - split; reflexivity.
  - discriminate.
  - reflexivity.
Qed.

(** C6, amended.  The histogram always has the six bins, in their fixed
    order, each with the number of records whose range is present and
    lies in it.  The counts add up to at most the size of the working
    subset, with equality exactly when every record has a present range
    that lies in one of the bins.  No number lies in two bins, every
    number in a bin is non-negative, and every non-negative integer lies
    in a bin. *)
Theorem rangeHist_bins (data : list Row) :
  rangeHist data
    = map (fun b => (label b, List.length (filter (rangeIn b) data))) bins /\
  map fst (rangeHist data)
    = ["0"; "1–50"; "51–100"; "101–200"; "201–300"; "301+"] /\
  sumCounts (rangeHist data) <= List.length data /\
  (sumCounts (rangeHist data) = List.length data
   <-> forall d, In d data ->
         exists r, range d = Some r /\
           (r == 0 \/ (1 <= r /\ r <= 50) \/ (51 <= r /\ r <= 100) \/
            (101 <= r /\ r <= 200) \/ (201 <= r /\ r <= 300) \/ 301 <= r)%Q) /\
  (forall r b b', In b bins -> In b' bins ->
     inBin r b = true -> inBin r b' = true -> b = b') /\
  (forall r b, In b bins -> inBin r b = true -> (0 <= r)%Q) /\
  (forall z, (0 <= z)%Z -> exists b, In b bins /\ inBin (inject_Z z) b = true).
Proof.
  split; [apply rangeHist_counts|].
  split; [rewrite rangeHist_counts, map_map; reflexivity|].
  rewrite sumCounts_rangeHist.
  destruct (filter_length_all binned data) as [Hle Heq].
  split; [exact Hle|]. split; [|split; [|split]].
  - rewrite Heq. split; intros H d Hd; apply binned_spec, H, Hd.
  - intros r b b' Hb Hb' Hr Hr'.
    apply inBin_bounds in Hr, Hr'. unfold bins in Hb, Hb'. simpl in Hb, Hb'.
    destruct Hb as [<-|[<-|[<-|[<-|[<-|[<-|[]]]]]]];
      destruct Hb' as [<-|[<-|[<-|[<-|[<-|[<-|[]]]]]]];
      simpl in Hr, Hr'; try reflexivity; exfalso; lra.
  - intros r b Hb Hr. apply inBin_bounds in Hr. unfold bins in Hb. simpl in Hb.
    destruct Hb as [<-|[<-|[<-|[<-|[<-|[<-|[]]]]]]]; simpl in Hr; lra.
  - apply bins_cover_naturals.
Qed.

(** ** The year series *)

Lemma In_firstOcc_In (K : Type) (eqb : K -> K -> bool) (l : list K) (k : K) :
  In k (firstOcc eqb l) -> In k l.
Proof.
  revert k. induction l as [|x l IH]; simpl; intros k; [tauto|].
  intros [->|H]; [left; reflexivity|].
  apply filter_In in H. right. apply IH, H.
Qed.

Lemma has_exists (K : Type) (eqb : K -> K -> bool) (s : list K) (x : K) :
  JS.has eqb s x = true <-> exists k, In k s /\ eqb k x = true.
Proof.
  induction s as [|k s IH]; simpl.
  - split; [discriminate | intros [k [[] _]]].
  - rewrite orb_true_iff, IH. split.
    + intros [H|[k' [Hin H]]]; [exists k | exists k']; auto.
    + intros [k' [[<-|Hin] H]]; [left | right; exists k']; auto.
Qed.

Lemma byYear_groups (data : list Row) :
  byYear data = JS.sort byYearAsc (groups Qeq_bool (selected year data)).
Proof.
  unfold byYear. f_equal.
  rewrite (fold_left_selected Qeq_bool year).
  - apply (tally_groups Qeq_bool Qeq_bool_refl Qeq_bool_comm Qeq_bool_trans).
  - intros m d. destruct (year d); reflexivity.
Qed.

Lemma byYearAsc_le (a b : Q * nat) :
  (byYearAsc a b <= 0)%Q <-> (fst a <= fst b)%Q.
Proof. unfold byYearAsc. split; intro; lra. Qed.

Lemma countOf_years (y : Q) (data : list Row) :
  countOf Qeq_bool y (selected year data)
  = List.length (filter (hasYear y) data).
Proof.
  unfold countOf, hasYear. induction data as [|d data IH]; simpl; [reflexivity|].
  rewrite filter_app, length_app, IH.
  destruct (year d) as [y'|]; simpl; [|reflexivity].
  destruct (Qeq_bool y' y); reflexivity.
Qed.

Lemma countOf_positive_equiv (l : list Q) (k : Q) :
  In k l -> 1 <= countOf Qeq_bool k l.
Proof.
  unfold countOf. induction l as [|x l IH]; simpl; [tauto|].
  intros [->|Hin].
  - rewrite Qeq_bool_refl. simpl. lia.
  - destruct (Qeq_bool x k); simpl; [lia | apply IH, Hin].
Qed.

(** C7. The year series has one entry for each distinct present year,
    with the number of records of that year, in strictly ascending order
    of year; records without a year are left out.  Its counts add up to
    at most the size of the working subset, with equality exactly when no
    record lacks a year.  For three records with the years 2018, 2020 and
    none, under the year range [2018, 2020] and no other filter, the
    series is [(2018, 1); (2020, 1)] and the total is 3. *)
Theorem byYear_series (subset : list Row) :
  Permutation (byYear subset) (groups Qeq_bool (selected year subset)) /\
  StronglySorted (fun a b => (fst a < fst b)%Q) (byYear subset) /\
  (forall y c, In (y, c) (byYear subset) ->
     1 <= c /\ c = List.length (filter (hasYear y) subset)) /\
  (forall d y, In d subset -> year d = Some y ->
     exists y' c, In (y', c) (byYear subset) /\ (y' == y)%Q) /\
  sumCounts (byYear subset) <= List.length subset /\
  (sumCounts (byYear subset) = List.length subset
   <-> forall d, In d subset -> year d <> None) /\
  (forall rg1 rg2 rg3 ty1 ty2 ty3 mk1 mk2 mk3 st1 st2 st3
          cf1 cf2 cf3 ci1 ci2 ci3 co1 co2 co3,
     let raw := [ mkRow (Some 2018%Q) rg1 ty1 mk1 st1 cf1 ci1 co1;
                  mkRow (Some 2020%Q) rg2 ty2 mk2 st2 cf2 ci2 co2;
                  mkRow None rg3 ty3 mk3 st3 cf3 ci3 co3 ] in
     let shown := data raw (mkFilter "ALL" "ALL" (2018, 2020)%Q "") in
     byYear shown = [(2018%Q, 1); (2020%Q, 1)] /\ total shown = 3).
Proof.
  rewrite byYear_groups.
  set (ys := selected year subset). set (gs := groups Qeq_bool ys).
  pose proof (sort_Permutation byYearAsc gs) as Hperm.
  assert (Hsum : sumCounts (JS.sort byYearAsc gs) = List.length ys).
  { rewrite (sumCounts_Permutation Hperm). unfold gs.
    rewrite <- (tally_groups Qeq_bool Qeq_bool_refl Qeq_bool_comm Qeq_bool_trans).
    rewrite sumCounts_tally. reflexivity. }
  split; [exact Hperm|]. split; [|split; [|split; [|split; [|split]]]].
  - assert (Hd : StronglySorted
                   (fun a b : Q * nat => Qeq_bool (fst a) (fst b) = false) gs).
    { apply StronglySorted_map with (f := fst)
        (R := fun a b => Qeq_bool a b = false).
      unfold gs. rewrite groups_keys. apply firstOcc_Distinct. }
    apply (sort_ranked byYearAsc) in Hd.
    + revert Hd. apply StronglySorted_impl_in.
      intros a b _ _ [Hab Hba]. rewrite byYearAsc_le in Hab, Hba.
      destruct (Qlt_le_dec (fst a) (fst b)) as [Hlt|Hge]; [exact Hlt|].
      specialize (Hba Hge). apply Qeq_bool_neq in Hba.
      exfalso. apply Hba. apply Qle_antisym; assumption.
    + intros a b. rewrite !byYearAsc_le. intros H.
      apply Qlt_le_weak, Qnot_le_lt, H.
    + intros a b c. rewrite !byYearAsc_le. apply Qle_trans.
  - intros y c Hin. apply (Permutation_in _ Hperm) in Hin.
    unfold gs, groups in Hin. apply in_map_iff in Hin.
    destruct Hin as [k [Heq Hk]]. inversion Heq; subst.
    apply In_firstOcc_In in Hk. split.
    + apply countOf_positive_equiv, Hk.
    + apply countOf_years.
  - intros d y Hd Hy.
    assert (Hin : In y ys) by (apply In_selected; exists d; auto).
    assert (Hhas : JS.has Qeq_bool (firstOcc Qeq_bool ys) y = true).
    { rewrite (has_firstOcc Qeq_bool Qeq_bool_trans).
      apply has_exists. exists y. split; [exact Hin | apply Qeq_bool_refl]. }
    apply has_exists in Hhas. destruct Hhas as [y' [Hy' E]].
    exists y', (countOf Qeq_bool y' ys). split.
    + apply (Permutation_in _ (Permutation_sym Hperm)).
      unfold gs, groups. apply in_map_iff. exists y'. auto.
    + apply Qeq_bool_iff, E.
  - rewrite Hsum. apply selected_length.
  - rewrite Hsum. apply selected_all.
  - intros. split; reflexivity.
Qed.

(** ** The summary counters *)








(** The test of the pattern [/Eligible/i] is the search for "eligible" in
    the lower-cased text: a code unit matches a letter of the pattern
    exactly when its lower case is the lower-case letter. *)
Ltac all_code_units c := destruct c as [[] [] [] [] [] [] [] []]; reflexivity.








(** ** The filter domain *)

Lemma defaultCompare_le (a b : string) :
  (JS.defaultCompare a b <= 0)%Q <-> String.compare a b <> Gt.
Proof.
  unfold JS.defaultCompare. destruct (String.compare a b); split; intro H;
    try discriminate; try congruence; try lra.
Qed.

Lemma compare_not_Gt (a b : string) :
  String.compare a b <> Gt <-> a = b \/ String_as_OT.lt a b.
Proof.
  rewrite <- String_as_OT.cmp_lt, <- String_as_OT.cmp_eq.
  unfold String_as_OT.cmp. destruct (String.compare a b); split; intro H;
    try congruence; try tauto; try (destruct H; discriminate).
Qed.

Lemma defaultCompare_total (a b : string) :
  ~ (JS.defaultCompare a b <= 0)%Q -> (JS.defaultCompare b a <= 0)%Q.
Proof.
  rewrite !defaultCompare_le. intros H.
  rewrite String.compare_antisym.
  destruct (String.compare a b); simpl; try discriminate;
    exfalso; apply H; discriminate.
Qed.

Lemma defaultCompare_trans (a b c : string) :
  (JS.defaultCompare a b <= 0)%Q -> (JS.defaultCompare b c <= 0)%Q ->
  (JS.defaultCompare a c <= 0)%Q.
Proof.
  rewrite !defaultCompare_le, !compare_not_Gt.
  intros [->|Hab] [->|Hbc]; auto.
  right. eapply String_as_OT.lt_trans; eauto.
Qed.

(** A menu of the filter domain: the distinct non-empty values of a field,
    in strictly ascending order of their code units. *)
Lemma domain_sorted (field : Row -> string) (raw : list Row) :
  let l := JS.sort JS.defaultCompare
             (JS.SetOf String.eqb (filter Str.truthy (map field raw))) in
  StronglySorted (fun a b => String.compare a b = Lt) l /\
  (forall s, In s l <-> s <> "" /\ exists d, In d raw /\ field d = s).
Proof.
  intros l. subst l. rewrite (SetOf_firstOcc String.eqb string_eqb_trans).
  set (vs := firstOcc String.eqb (filter Str.truthy (map field raw))).
  pose proof (sort_Permutation JS.defaultCompare vs) as Hperm.
  split.
  - pose proof (firstOcc_Distinct String.eqb (filter Str.truthy (map field raw)))
      as Hd.
    apply (sort_ranked JS.defaultCompare defaultCompare_total defaultCompare_trans)
      in Hd.
    revert Hd. apply StronglySorted_impl_in.
    intros a b _ _ [Hab Hba]. rewrite defaultCompare_le in Hab, Hba.
    destruct (String.compare a b) eqn:E; [|reflexivity|congruence].
    assert (E' : a = b) by (apply String.compare_eq_iff, E). subst b.
    rewrite String.eqb_refl in Hba. discriminate Hba. rewrite E. discriminate.
  - intros s. split.
    + intros Hin. apply (Permutation_in _ Hperm) in Hin. unfold vs in Hin.
      rewrite In_firstOcc, filter_In, in_map_iff, truthy_nonempty in Hin.
      destruct Hin as [[d [Hd Hin]] Hs]. split; [exact Hs | exists d; auto].
    + intros [Hs [d [Hin Hd]]].
      apply (Permutation_in _ (Permutation_sym Hperm)). unfold vs.
      rewrite In_firstOcc, filter_In, in_map_iff, truthy_nonempty.
      split; [exists d; auto | exact Hs].
Qed.

Lemma years_selected (rows : list Row) :
  flat_map (fun y => match y with Some q => [q] | None => [] end) (years rows)
  = selected year rows /\
  ((List.length (years rows) =? 0)%nat = true <-> selected year rows = []).
Proof.
  unfold years. induction rows as [|d rows [IH1 IH2]]; simpl.
  - split; [reflexivity | split; reflexivity].
  - destruct (year d) as [y|]; simpl.
    + rewrite IH1. split; [reflexivity | split; discriminate].
    + split; assumption.
Qed.

Lemma mathMin_least (ys : list Q) (m : Q) :
  exists lo, fold_left (fun m y => match m with
                                   | Finite q => Finite (Qmin q y)
                                   | PosInfinity => Finite y
                                   | _ => m
                                   end) ys (Finite m) = Finite lo /\
             In lo (m :: ys) /\ forall y, In y (m :: ys) -> (lo <= y)%Q.
Proof.
  revert m. induction ys as [|y ys IH]; intros m; simpl.
  - exists m. split; [reflexivity|]. split; [auto|].
    intros y [<-|[]]. apply Qle_refl.
  - destruct (IH (Qmin m y)) as [lo [Hfold [Hin Hle]]].
    exists lo. split; [exact Hfold|]. split.
    + destruct Hin as [<-|Hin]; [|auto].
      unfold Qmin, GenericMinMax.gmin. destruct (m ?= y)%Q; auto.
    + intros z Hz.
      assert (Hm : (lo <= Qmin m y)%Q) by (apply Hle; left; reflexivity).
      destruct Hz as [<-|[<-|Hz]].
      * eapply Qle_trans; [exact Hm | apply Q.le_min_l].
      * eapply Qle_trans; [exact Hm | apply Q.le_min_r].
      * apply Hle. right. exact Hz.
Qed.

Lemma mathMax_greatest (ys : list Q) (m : Q) :
  exists hi, fold_left (fun m y => match m with
                                   | Finite q => Finite (Qmax q y)
                                   | NegInfinity => Finite y
                                   | _ => m
                                   end) ys (Finite m) = Finite hi /\
             In hi (m :: ys) /\ forall y, In y (m :: ys) -> (y <= hi)%Q.
Proof.
  revert m. induction ys as [|y ys IH]; intros m; simpl.
  - exists m. split; [reflexivity|]. split; [auto|].
    intros y [<-|[]]. apply Qle_refl.
  - destruct (IH (Qmax m y)) as [hi [Hfold [Hin Hle]]].
    exists hi. split; [exact Hfold|]. split.
    + destruct Hin as [<-|Hin]; [|auto].
      unfold Qmax, GenericMinMax.gmax. destruct (m ?= y)%Q; auto.
    + intros z Hz.
      assert (Hm : (Qmax m y <= hi)%Q) by (apply Hle; left; reflexivity).
      destruct Hz as [<-|[<-|Hz]].
      * eapply Qle_trans; [apply Q.le_max_l | exact Hm].
      * eapply Qle_trans; [apply Q.le_max_r | exact Hm].
      * apply Hle. right. exact Hz.
Qed.

Lemma yearBounds_extrema (rows : list Row) :
  (selected year rows = [] ->
   yearBounds rows = (Finite 2010, Finite 2025)) /\
  (selected year rows <> [] ->
   exists lo hi,
     yearBounds rows = (Finite lo, Finite hi) /\
     In lo (selected year rows) /\ In hi (selected year rows) /\
     forall y, In y (selected year rows) -> (lo <= y)%Q /\ (y <= hi)%Q).
Proof.
  unfold yearBounds. destruct (years_selected rows) as [Hqs Hlen].
  rewrite Hqs. destruct (selected year rows) as [|y ys] eqn:E.
  - split; [|congruence]. intros _.
    rewrite (proj2 Hlen) by reflexivity. reflexivity.
  - split; [discriminate|]. intros _.
    destruct (List.length (years rows) =? 0)%nat eqn:El.
    { destruct Hlen as [Hl _]. specialize (Hl eq_refl). discriminate Hl. }
    unfold mathMin, mathMax. simpl.
    destruct (mathMin_least ys y) as [lo [Hlo [Hinlo Hle]]].
    destruct (mathMax_greatest ys y) as [hi [Hhi [Hinhi Hge]]].
    rewrite Hlo, Hhi. exists lo, hi. repeat split; auto.
Qed.


(** ** The empty working subset *)

(** A state filter that no record matches leaves nothing. *)
Lemma unmatched_state_empties (raw : list Row) (p : FilterParams) :
  stateFilter p <> "ALL" ->
  (forall d, In d raw -> state d <> stateFilter p) ->
  data raw p = [].
Proof.
  intros Hall Hno.
  destruct (data_is_filtered_subsequence_aux raw p) as [Hsat Heq].
  rewrite Heq. clear Heq.
  induction raw as [|d raw IH]; simpl; [reflexivity|].
  destruct (keep _ _ _ _ _ d) eqn:E.
  - apply Hsat in E. destruct E as (_ & Hs & _).
    exfalso. apply (Hno d (or_introl eq_refl)). apply Hs, Hall.
  - apply IH. intros d' Hd'. apply Hno. right. exact Hd'.
Qed.

(** C9. When the filter leaves no record, every view has its empty
    value: the four counters are 0, the year series, the top makes and
    the two distributions are empty, the six bins of the histogram hold 0
    and the preview is empty.  The views are total functions, so nothing
    fails. *)
Theorem empty_subset_views (raw : list Row) (p : FilterParams) :
  data raw p = [] ->
  total (data raw p) = 0 /\
  uniqueMakes (data raw p) = 0 /\
  avgRange (data raw p) = 0%Z /\
  cafvPct (data raw p) = 0%Z /\
  byYear (data raw p) = [] /\
  topMakes (data raw p) = [] /\
  typeDist (data raw p) = [] /\
  cafvDist (data raw p) = [] /\
  rangeHist (data raw p)
    = [("0", 0); ("1–50", 0); ("51–100", 0); ("101–200", 0);
       ("201–300", 0); ("301+", 0)] /\
  preview (data raw p) = [].
Proof.
  intros ->. repeat split.
Qed.

(** The state filter "WA" over records of other states. *)
Lemma empty_subset_views_WA :
  let raw := parseCsvRows
               [ [("State", "CA"); ("Make", "TESLA"); ("Model Year", "2020");
                  ("Electric Range", "220")];
                 [("State", "OR"); ("Make", "KIA"); ("Model Year", "2019")] ] in
  let p := mkFilter "WA" "ALL" (2010, 2025)%Q "" in
  data raw p = [] /\
  total (data raw p) = 0 /\
  uniqueMakes (data raw p) = 0 /\
  avgRange (data raw p) = 0%Z /\
  cafvPct (data raw p) = 0%Z /\
  byYear (data raw p) = [] /\
  topMakes (data raw p) = [] /\
  typeDist (data raw p) = [] /\
  cafvDist (data raw p) = [] /\
  rangeHist (data raw p)
    = [("0", 0); ("1–50", 0); ("51–100", 0); ("101–200", 0);
       ("201–300", 0); ("301+", 0)] /\
  preview (data raw p) = [].
Proof.
  split; [reflexivity|].
  apply (empty_subset_views
           (parseCsvRows
              [ [("State", "CA"); ("Make", "TESLA"); ("Model Year", "2020");
                 ("Electric Range", "220")];
                [("State", "OR"); ("Make", "KIA"); ("Model Year", "2019")] ])
           (mkFilter "WA" "ALL" (2010, 2025)%Q "")).
  reflexivity.
Defined.

(** ** Scenarios of the specification *)

(** The query "tesla" keeps the makes "Tesla" and "TESLA MOTORS" and
    drops the others. *)
Example makeQuery_tesla :
  map make
    (data (parseCsvRows [ [("Make", "Tesla")]; [("Make", "KIA")];
                          [("Make", "TESLA MOTORS")] ])
          (mkFilter "ALL" "ALL" (2010, 2025)%Q " Tesla "))
  = ["Tesla"; "TESLA MOTORS"].
Proof. reflexivity. Qed.

(** Two records of range 45 and one without a range. *)
Example two_ranges_of_45 :
  let subset := parseCsvRows [ [("Electric Range", "45")];
                               [("Electric Range", "45")];
                               [("Electric Range", "n/a")] ] in
  rangeHist subset
    = [("0", 0); ("1–50", 2); ("51–100", 0); ("101–200", 0);
       ("201–300", 0); ("301+", 0)] /\
  avgRange subset = 45%Z.
Proof. split; reflexivity. Qed.

(** The menus come from the whole collection: a filter that leaves one
    state in the working subset leaves both states in the menu. *)
Example menu_keeps_all_states :
  let raw := parseCsvRows [ [("State", "WA")]; [("State", "CA")] ] in
  let p := mkFilter "WA" "ALL" (2010, 2025)%Q "" in
  map state (data raw p) = ["WA"] /\ allStates raw = ["ALL"; "CA"; "WA"].
Proof. split; reflexivity. Qed.

(** * Further properties of the code *)

(** ** The marks of the year slider *)

Section YearMarksFacts.

Import Marks.

Variable numberToString : Q -> string.

















End YearMarksFacts.

(** ** The text fields of a normalized record *)

Lemma trimStart_startsWhite (s : string) : startsWhite (Str.trimStart s) = false.
Proof.
  induction s as [|c s IH]; simpl; [reflexivity|].
  destruct (Str.isWhiteSpace c) eqn:E; [exact IH | simpl; exact E].
Qed.

Lemma trimStart_id (s : string) : startsWhite s = false -> Str.trimStart s = s.
Proof. destruct s as [|c s]; simpl; [reflexivity | intros ->; reflexivity]. Qed.

Lemma trimEnd_cons (c : ascii) (s : string) :
  Str.trimEnd (String c s)
  = match Str.trimEnd s with
    | EmptyString => if Str.isWhiteSpace c then EmptyString else String c EmptyString
    | String c' t => String c (String c' t)
    end.
Proof. simpl. destruct (Str.trimEnd s); reflexivity. Qed.

Lemma trimEnd_startsWhite (s : string) :
  startsWhite s = false -> startsWhite (Str.trimEnd s) = false.
Proof.
  destruct s as [|c s]; [reflexivity|]. rewrite trimEnd_cons. simpl. intros E.
  destruct (Str.trimEnd s); [rewrite E|]; simpl; auto.
Qed.

Lemma trimEnd_idempotent (s : string) : Str.trimEnd (Str.trimEnd s) = Str.trimEnd s.
Proof.
  induction s as [|c s IH]; [reflexivity|].
  rewrite trimEnd_cons. destruct (Str.trimEnd s) as [|c' t] eqn:E.
  - destruct (Str.isWhiteSpace c) eqn:Ec; [reflexivity|].
    rewrite trimEnd_cons. simpl. rewrite Ec. reflexivity.
  - rewrite trimEnd_cons, IH. reflexivity.
Qed.

(** Trimming a trimmed text changes nothing. *)
Lemma trim_idempotent (s : string) : Str.trim (Str.trim s) = Str.trim s.
Proof.
  unfold Str.trim.
  rewrite (trimStart_id (Str.trimEnd (Str.trimStart s))).
  - apply trimEnd_idempotent.
  - apply trimEnd_startsWhite, trimStart_startsWhite.
Qed.

(** A trimmed text does not end in white space. *)
Lemma trimEnd_last (s front : string) (c : ascii) :
  Str.trimEnd s = (front ++ String c "")%string -> Str.isWhiteSpace c = false.
Proof.
  revert front. induction s as [|a s IH]; intros front.
  - simpl. destruct front; discriminate.
  - rewrite trimEnd_cons. destruct (Str.trimEnd s) as [|c' t] eqn:E.
    + destruct (Str.isWhiteSpace a) eqn:Ea.
      * destruct front; discriminate.
      * destruct front as [|f front]; simpl.
        -- intros [= <-]. exact Ea.
        -- intros [= _ H]. destruct front; discriminate.
    + destruct front as [|f front]; simpl; [discriminate|].
      intros [= _ H]. apply (IH front). exact H.
Qed.

Lemma trim_ends (s : string) :
  startsWhite (Str.trim s) = false /\
  forall front c, Str.trim s = (front ++ String c "")%string ->
                  Str.isWhiteSpace c = false.
Proof.
  split.
  - apply trimEnd_startsWhite, trimStart_startsWhite.
  - intros front c. apply trimEnd_last.
Qed.

(** X4. The four text fields of a normalized record are trimmed: trimming
    them again changes nothing, and none starts or ends with white space. *)
Theorem parseCsvRow_text_trimmed (r : RawRow) :
  let d := parseCsvRow r in
  Forall (fun f => Str.trim f = f /\
                   startsWhite f = false /\
                   forall front c, f = (front ++ String c "")%string ->
                                   Str.isWhiteSpace c = false)
         [type d; make d; state d; cafv d].
Proof.
  cbv zeta. unfold parseCsvRow. cbn [type make state cafv].
  repeat constructor;
    try apply trim_idempotent;
    try (apply trim_ends);
    try (intros front c; apply (proj2 (trim_ends _))).
Qed.

Lemma collapseFrom_singleSpaced (inRun : bool) (s : string) :
  singleSpaced (Str.collapseFrom inRun s) = true /\
  (inRun = true -> startsWhite (Str.collapseFrom inRun s) = false).
Proof.
  revert inRun. induction s as [|c s IH]; intros inRun; simpl; [auto|].
  destruct (Str.isWhiteSpace c) eqn:Ec.
  - destruct inRun.
    + apply IH.
    + destruct (IH true) as [H1 H2]. split; [|discriminate].
      simpl. rewrite H1, (H2 eq_refl). reflexivity.
  - destruct (IH false) as [H1 _]. split.
    + simpl. rewrite Ec, H1. reflexivity.
    + intros _. simpl. exact Ec.
Qed.

Lemma singleSpaced_trimStart (s : string) :
  singleSpaced s = true -> singleSpaced (Str.trimStart s) = true.
Proof.
  induction s as [|c s IH]; [auto|].
  intros H. simpl Str.trimStart. destruct (Str.isWhiteSpace c); [|exact H].
  apply IH. simpl in H. apply andb_true_iff in H. apply H.
Qed.

Lemma trimEnd_startsWhite_inv (s : string) :
  startsWhite (Str.trimEnd s) = true -> startsWhite s = true.
Proof.
  destruct s as [|c s]; [discriminate|]. rewrite trimEnd_cons.
  destruct (Str.trimEnd s); [destruct (Str.isWhiteSpace c) eqn:E|]; simpl; auto.
Qed.

Lemma singleSpaced_trimEnd (s : string) :
  singleSpaced s = true -> singleSpaced (Str.trimEnd s) = true.
Proof.
  induction s as [|c s IH]; [auto|].
  intros H. simpl in H. apply andb_true_iff in H. destruct H as [Hc Hs].
  specialize (IH Hs). rewrite trimEnd_cons.
  destruct (Str.trimEnd s) as [|c' t] eqn:E.
  - destruct (Str.isWhiteSpace c) eqn:Ec; [reflexivity|]. simpl. rewrite Ec. reflexivity.
  - change (singleSpaced (String c (String c' t)))
      with ((negb (Str.isWhiteSpace c)
             || (Ascii.eqb c " " && negb (startsWhite (String c' t))))
            && singleSpaced (String c' t)).
    rewrite IH, andb_true_r.
    destruct (Str.isWhiteSpace c); [|reflexivity]. simpl in Hc |- *.
    apply andb_true_iff in Hc. destruct Hc as [Hsp Hnw]. rewrite Hsp. simpl.
    destruct (Str.isWhiteSpace c') eqn:Ec'; [|reflexivity].
    assert (Hw : startsWhite s = true).
    { apply trimEnd_startsWhite_inv. rewrite E. exact Ec'. }
    rewrite Hw in Hnw. discriminate.
Qed.

Lemma collapseFrom_id (inRun : bool) (s : string) :
  (inRun = true -> startsWhite s = false) ->
  singleSpaced s = true -> Str.collapseFrom inRun s = s.
Proof.
  revert inRun. induction s as [|c s IH]; intros inRun Hrun H; [reflexivity|].
  simpl in H. apply andb_true_iff in H. destruct H as [Hc Hs]. simpl in *.
  destruct (Str.isWhiteSpace c) eqn:Ec.
  - destruct inRun; [discriminate (Hrun eq_refl)|].
    simpl in Hc. apply andb_true_iff in Hc. destruct Hc as [Hsp Hnw].
    apply Ascii.eqb_eq in Hsp. subst c.
    rewrite (IH true); [reflexivity | | exact Hs].
    intros _. apply negb_true_iff. exact Hnw.
  - rewrite (IH false); [reflexivity | discriminate | exact Hs].
Qed.

(** X5. The type of a normalized record is trimmed and single-spaced: every
    white-space code unit in it is one space between two other code
    units.  Normalizing it again yields it unchanged. *)
Theorem parseCsvRow_type_single_spaced (r : RawRow) :
  let t := type (parseCsvRow r) in
  singleSpaced t = true /\
  startsWhite t = false /\
  (forall front c, t = (front ++ String c "")%string ->
                   Str.isWhiteSpace c = false) /\
  Str.trim (Str.collapseWhiteSpace t) = t.
Proof.
  cbv zeta. unfold parseCsvRow. cbn [type].
  set (src := prop r "Electric Vehicle Type" ?? prop r "type" ?! "").
  assert (Hss : singleSpaced (Str.trim (Str.collapseWhiteSpace src)) = true).
  { unfold Str.trim. apply singleSpaced_trimEnd, singleSpaced_trimStart.
    apply collapseFrom_singleSpaced. }
  split; [exact Hss|]. split; [apply trim_ends|]. split; [apply trim_ends|].
  unfold Str.collapseWhiteSpace at 1.
  rewrite collapseFrom_id; [apply trim_idempotent | discriminate | exact Hss].
Qed.

(** ** Numeric cells *)

Lemma Number_blank (s : string) :
  Str.trim s = "" -> Num.Number (Some s) = Finite 0.
Proof. intros H. simpl. unfold Num.StringToNumber. rewrite H. reflexivity. Qed.

(** X6. A range cell that is empty or holds only white space is not absent:
    it reads as the number 0.  The record is counted in the bin "0" and
    is left out of the average range. *)
Theorem blank_range_cell_is_zero (r : RawRow) (s : string) :
  rangeSource r = Some s -> Str.trim s = "" ->
  range (parseCsvRow r) = Some 0%Q /\
  positiveRange (parseCsvRow r) = None /\
  rangeHist [parseCsvRow r]
    = [("0", 1); ("1–50", 0); ("51–100", 0); ("101–200", 0);
       ("201–300", 0); ("301+", 0)].
Proof.
  intros Hsrc Hblank.
  assert (Hr : range (parseCsvRow r) = Some 0%Q).
  { rewrite range_parseCsvRow, Hsrc, (Number_blank _ Hblank). reflexivity. }
  split; [exact Hr|]. split.
  - unfold positiveRange. rewrite Hr. reflexivity.
  - rewrite rangeHist_counts. unfold bins, rangeIn. cbn [map filter].
    rewrite Hr. reflexivity.
Qed.

Lemma blank_range_cell_is_zero_example :
  let r := [("Make", "KIA"); ("Electric Range", "  ")] in
  range (parseCsvRow r) = Some 0%Q /\
  positiveRange (parseCsvRow r) = None /\
  rangeHist [parseCsvRow r]
    = [("0", 1); ("1–50", 0); ("51–100", 0); ("101–200", 0);
       ("201–300", 0); ("301+", 0)].
Proof.
  apply (@blank_range_cell_is_zero [("Make", "KIA"); ("Electric Range", "  ")] "  ");
    reflexivity.
Defined.




(** *** Decimal digits *)









(** ** The filtered set under changes of the filter *)

Lemma filter_narrow (A : Type) (f g : A -> bool) (l : list A) :
  (forall x, g x = true -> f x = true) ->
  filter g l = filter g (filter f l).
Proof.
  intros H. induction l as [|x l IH]; simpl; [reflexivity|].
  destruct (g x) eqn:Eg.
  - rewrite (H x Eg). simpl. rewrite Eg, IH. reflexivity.
  - destruct (f x); simpl; [rewrite Eg|]; exact IH.
Qed.


Lemma data_In (raw : list Row) (p : FilterParams) (d : Row) :
  In d (data raw p) <-> In d raw /\ FilterPredicate p d.
Proof.
  destruct (data_is_filtered_subsequence_aux raw p) as [Hsat ->].
  rewrite filter_In, Hsat. reflexivity.
Qed.

Lemma data_narrow (raw : list Row) (p p' : FilterParams) :
  (forall d, FilterPredicate p' d -> FilterPredicate p d) ->
  data raw p' = data (data raw p) p'.
Proof.
  intros H.
  destruct (data_is_filtered_subsequence_aux raw p) as [Hsat Hp].
  destruct (data_is_filtered_subsequence_aux raw p') as [Hsat' Hp'].
  destruct (data_is_filtered_subsequence_aux (data raw p) p') as [_ Hpp'].
  rewrite Hpp', Hp', Hp. apply filter_narrow.
  intros d Hd. apply Hsat, H, Hsat', Hd.
Qed.

(** X9. Narrowing the year range can be done on the working subset in place
    of the whole collection: the records kept under the narrower range
    are those the narrower filter keeps among the records shown before,
    and they are no more than before. *)
Theorem data_narrow_year_range (raw : list Row) (p : FilterParams) (lo hi : Q) :
  (fst (yearRange p) <= lo)%Q -> (hi <= snd (yearRange p))%Q ->
  data raw (setYearRange (lo, hi) p)
    = data (data raw p) (setYearRange (lo, hi) p) /\
  List.length (data raw (setYearRange (lo, hi) p)) <= List.length (data raw p).
Proof.
  intros Hlo Hhi.
  assert (Heq : data raw (setYearRange (lo, hi) p)
                = data (data raw p) (setYearRange (lo, hi) p)).
  { apply data_narrow. intros d (Hy & Hs & Ht & Hm).
    split; [|split; [|split]]; auto.
    intros y Ey. destruct (Hy y Ey) as [H1 H2]. simpl in H1, H2.
    split; eapply Qle_trans; eauto. }
  split; [exact Heq|]. rewrite Heq.
  destruct (data_is_filtered_subsequence_aux (data raw p) (setYearRange (lo, hi) p))
    as [_ ->].
  apply filter_length_all.
Qed.

Lemma data_narrow_year_range_example :
  let raw := parseCsvRows [ [("Model Year", "2012")]; [("Model Year", "2019")];
                            [("Model Year", "")]; [("Make", "KIA")] ] in
  data raw (setYearRange (2015, 2020)%Q initialFilter)
    = data (data raw initialFilter) (setYearRange (2015, 2020)%Q initialFilter) /\
  List.length (data raw (setYearRange (2015, 2020)%Q initialFilter))
    <= List.length (data raw initialFilter).
Proof.
  apply (@data_narrow_year_range
           (parseCsvRows [ [("Model Year", "2012")]; [("Model Year", "2019")];
                           [("Model Year", "")]; [("Make", "KIA")] ])
           initialFilter 2015%Q 2020%Q); discriminate.
Defined.

(** X10. Filtering twice with the same filter is filtering once, and two
    filters can be applied in either order. *)
Theorem data_idempotent_commutes (raw : list Row) (p p' : FilterParams) :
  data (data raw p) p = data raw p /\
  data (data raw p) p' = data (data raw p') p.
Proof.
  split.
  - symmetry. apply data_narrow. auto.
  - destruct (data_is_filtered_subsequence_aux raw p) as [_ Hp].
    destruct (data_is_filtered_subsequence_aux raw p') as [_ Hp'].
    destruct (data_is_filtered_subsequence_aux (data raw p) p') as [_ Hpp'].
    destruct (data_is_filtered_subsequence_aux (data raw p') p) as [_ Hp'p].
    rewrite Hpp', Hp'p, Hp, Hp'. clear.
    induction raw as [|d raw IH]; simpl; [reflexivity|].
    destruct (keep _ _ _ _ _ d) eqn:E1;
      destruct (keep (fst (yearRange p')) _ _ _ _ d) eqn:E2; simpl;
      rewrite ?E1, ?E2, IH; reflexivity.
Qed.

(** ** The load and the filter domain *)

Lemma yearBounds_ordered (rows : list Row) :
  exists lo hi,
    yearBounds rows = (Finite lo, Finite hi) /\ (lo <= hi)%Q /\
    forall d y, In d rows -> year d = Some y -> (lo <= y)%Q /\ (y <= hi)%Q.
Proof.
  destruct (yearBounds_extrema rows) as [Hnone Hsome].
  destruct (selected year rows) as [|y0 ys] eqn:E.
  - exists 2010%Q, 2025%Q. split; [apply Hnone; reflexivity|].
    split; [discriminate|].
    intros d y Hd Hy.
    assert (Hin : In y (selected year rows)) by (apply In_selected; eauto).
    rewrite E in Hin. destruct Hin.
  - destruct Hsome as (lo & hi & Hb & Hlo & _ & Hall); [discriminate|].
    exists lo, hi. split; [exact Hb|]. split.
    + apply (Hall lo Hlo).
    + intros d y Hd Hy. apply Hall. rewrite <- E. apply In_selected. eauto.
Qed.


(** X12. Under the year bounds of the collection and no other filter, every
    entry of the state menu other than "ALL" selects at least one record,
    and only records of that state; likewise every entry of the type
    menu. *)
Theorem menu_entries_select_records (raw : list Row) (lo hi : Q) :
  yearBounds raw = (Finite lo, Finite hi) ->
  (forall s, In s (allStates raw) -> s <> "ALL" ->
     data raw (setStateFilter s (setYearRange (lo, hi) initialFilter)) <> [] /\
     forall d, In d (data raw (setStateFilter s (setYearRange (lo, hi) initialFilter)))
               -> state d = s) /\
  (forall t, In t (allTypes raw) -> t <> "ALL" ->
     data raw (setTypeFilter t (setYearRange (lo, hi) initialFilter)) <> [] /\
     forall d, In d (data raw (setTypeFilter t (setYearRange (lo, hi) initialFilter)))
               -> type d = t).
Proof.
  intros Hb.
  destruct (yearBounds_ordered raw) as (lo' & hi' & Hb' & _ & Hall).
  rewrite Hb in Hb'. injection Hb' as <- <-.
  destruct (domain_sorted state raw) as [_ Hs].
  destruct (domain_sorted type raw) as [_ Ht].
  split.
  - intros s [Hin|Hin] Hne; [congruence|].
    apply Hs in Hin. destruct Hin as [_ [d [Hd Hst]]]. split.
    + intros Hnil.
      assert (Hd' : In d (data raw (setStateFilter s
                                      (setYearRange (lo, hi) initialFilter)))).
      { apply data_In. split; [exact Hd|].
        split; [|split; [|split]]; simpl.
        - intros y Hy. apply (Hall d y Hd Hy).
        - intros _. exact Hst.
        - intros H. exfalso. apply H. reflexivity.
        - intros H. exfalso. apply H. reflexivity. }
      rewrite Hnil in Hd'. destruct Hd'.
    + intros d' Hd'. apply data_In in Hd'. destruct Hd' as [_ (_ & Hst' & _)].
      apply Hst'. exact Hne.
  - intros t [Hin|Hin] Hne; [congruence|].
    apply Ht in Hin. destruct Hin as [_ [d [Hd Hty]]]. split.
    + intros Hnil.
      assert (Hd' : In d (data raw (setTypeFilter t
                                      (setYearRange (lo, hi) initialFilter)))).
      { apply data_In. split; [exact Hd|].
        split; [|split; [|split]]; simpl.
        - intros y Hy. apply (Hall d y Hd Hy).
        - intros H. exfalso. apply H. reflexivity.
        - intros _. exact Hty.
        - intros H. exfalso. apply H. reflexivity. }
      rewrite Hnil in Hd'. destruct Hd'.
    + intros d' Hd'. apply data_In in Hd'. destruct Hd' as [_ (_ & _ & Hty' & _)].
      apply Hty'. exact Hne.
Qed.

Lemma menu_entries_select_records_example :
  let raw := parseCsvRows [ [("State", "WA"); ("Model Year", "2019")];
                            [("State", "CA"); ("Electric Vehicle Type", "BEV")] ] in
  (forall s, In s (allStates raw) -> s <> "ALL" ->
     data raw (setStateFilter s (setYearRange (2019, 2019)%Q initialFilter)) <> [] /\
     forall d, In d (data raw (setStateFilter s
                                 (setYearRange (2019, 2019)%Q initialFilter)))
               -> state d = s) /\
  (forall t, In t (allTypes raw) -> t <> "ALL" ->
     data raw (setTypeFilter t (setYearRange (2019, 2019)%Q initialFilter)) <> [] /\
     forall d, In d (data raw (setTypeFilter t
                                 (setYearRange (2019, 2019)%Q initialFilter)))
               -> type d = t).
Proof.
  apply (@menu_entries_select_records
           (parseCsvRows [ [("State", "WA"); ("Model Year", "2019")];
                           [("State", "CA"); ("Electric Vehicle Type", "BEV")] ])
           2019%Q 2019%Q).
  reflexivity.
Defined.

(** ** The make query *)

Lemma lowerChar_white (c : ascii) :
  Str.isWhiteSpace (Str.lowerChar c) = Str.isWhiteSpace c.
Proof. all_code_units c. Qed.

Lemma lowerChar_idempotent (c : ascii) :
  Str.lowerChar (Str.lowerChar c) = Str.lowerChar c.
Proof. all_code_units c. Qed.

Lemma toLowerCase_idempotent (s : string) :
  Str.toLowerCase (Str.toLowerCase s) = Str.toLowerCase s.
Proof.
  induction s as [|c s IH]; simpl; [reflexivity|].
  rewrite lowerChar_idempotent, IH. reflexivity.
Qed.

Lemma trimStart_toLowerCase (s : string) :
  Str.trimStart (Str.toLowerCase s) = Str.toLowerCase (Str.trimStart s).
Proof.
  induction s as [|c s IH]; simpl; [reflexivity|].
  rewrite lowerChar_white. destruct (Str.isWhiteSpace c); [exact IH | reflexivity].
Qed.

Lemma trimEnd_toLowerCase (s : string) :
  Str.trimEnd (Str.toLowerCase s) = Str.toLowerCase (Str.trimEnd s).
Proof.
  induction s as [|c s IH]; [reflexivity|].
  simpl Str.toLowerCase at 1. rewrite !trimEnd_cons, IH, lowerChar_white.
  destruct (Str.trimEnd s); simpl; [destruct (Str.isWhiteSpace c)|]; reflexivity.
Qed.

Lemma trim_toLowerCase (s : string) :
  Str.trim (Str.toLowerCase s) = Str.toLowerCase (Str.trim s).
Proof.
  unfold Str.trim. rewrite trimStart_toLowerCase, trimEnd_toLowerCase. reflexivity.
Qed.

Lemma data_query_only (raw : list Row) (p : FilterParams) (q q' : string) :
  Str.toLowerCase (Str.trim q) = Str.toLowerCase (Str.trim q') ->
  data raw (setMakeQuery q p) = data raw (setMakeQuery q' p).
Proof.
  intros H. unfold data, setMakeQuery. simpl.
  destruct (yearRange p). rewrite H. reflexivity.
Qed.

(** X13. The make query is read without its surrounding white space and
    without regard to letter case: typing the trimmed, lower-cased form of
    a query gives the same working subset, and a query of white space only
    gives the same as no query. *)
Theorem makeQuery_normal_form (raw : list Row) (p : FilterParams) (q : string) :
  data raw (setMakeQuery (Str.toLowerCase (Str.trim q)) p)
    = data raw (setMakeQuery q p) /\
  data raw (setMakeQuery (Str.trim q) p) = data raw (setMakeQuery q p) /\
  data raw (setMakeQuery (Str.toLowerCase q) p) = data raw (setMakeQuery q p) /\
  (Str.trim q = "" -> data raw (setMakeQuery q p) = data raw (setMakeQuery "" p)).
Proof.
  repeat split.
  - apply data_query_only.
    rewrite trim_toLowerCase, trim_idempotent, toLowerCase_idempotent. reflexivity.
  - apply data_query_only. rewrite trim_idempotent. reflexivity.
  - apply data_query_only.
    rewrite trim_toLowerCase, toLowerCase_idempotent. reflexivity.
  - intros H. apply data_query_only. rewrite H. reflexivity.
Qed.

(** ** The ranking of the makes *)

Lemma StronglySorted_app_inv (A : Type) (R : A -> A -> Prop) (l1 l2 : list A) :
  StronglySorted R (l1 ++ l2) ->
  forall a b, In a l1 -> In b l2 -> R a b.
Proof.
  induction l1 as [|x l1 IH]; simpl; intros H a b Ha Hb; [destruct Ha|].
  inversion H as [|? ? Hs Hx]; subst. destruct Ha as [<-|Ha].
  - rewrite Forall_forall in Hx. apply Hx. apply in_or_app. right. exact Hb.
  - apply (IH Hs a b Ha Hb).
Qed.

Lemma uniqueMakes_groups (subset : list Row) :
  uniqueMakes subset
  = List.length (groups String.eqb (filter Str.truthy (map make subset))).
Proof.
  unfold uniqueMakes, makeSet, groups.
  rewrite (SetOf_firstOcc String.eqb string_eqb_trans), length_map. reflexivity.
Qed.

(** X14. The ranking lists every make when there are at most ten, and ten of
    them otherwise.  Its first entry has the largest count of all makes,
    and no make left out has a larger count than one that is listed. *)
Theorem topMakes_lists_the_largest (subset : list Row) :
  List.length (topMakes subset) = Nat.min 10 (uniqueMakes subset) /\
  (forall d, In d subset -> make d <> "" ->
     exists e rest,
       topMakes subset = e :: rest /\
       List.length (filter (fun d' => make d' =? make d) subset) <= snd e) /\
  (forall d e, In d subset -> make d <> "" ->
     ~ In (make d) (map fst (topMakes subset)) ->
     In e (topMakes subset) ->
     List.length (filter (fun d' => make d' =? make d) subset) <= snd e).
Proof.
  unfold topMakes, JS.slice0. rewrite makeCounts_groups, uniqueMakes_groups.
  set (makes := filter Str.truthy (map make subset)).
  set (gs := groups String.eqb makes).
  set (ranking := JS.sort byCountDesc gs).
  pose proof (sort_Permutation byCountDesc gs) as Hperm. fold ranking in Hperm.
  assert (Hsorted : StronglySorted (fun a b => snd b <= snd a) ranking).
  { pose proof (sort_groups_ranked Str.truthy (map make subset)) as H.
    revert H. apply StronglySorted_impl_in. intros a b _ _.
    apply rankedBefore_count. }
  assert (Hgroup : forall d, In d subset -> make d <> "" ->
            In (make d, List.length (filter (fun d' => make d' =? make d) subset))
               ranking).
  { intros d Hd Hne. apply (Permutation_in _ (Permutation_sym Hperm)).
    apply In_groups. split.
    - apply filter_In. split; [apply in_map, Hd | apply truthy_nonempty, Hne].
    - unfold makes. rewrite countOf_filter by (apply truthy_nonempty, Hne).
      symmetry. apply countOf_map. }
  split; [|split].
  - rewrite length_firstn, (Permutation_length Hperm). reflexivity.
  - intros d Hd Hne. specialize (Hgroup d Hd Hne).
    destruct ranking as [|e rest] eqn:Er; [destruct Hgroup|].
    exists e, (firstn 9 rest). split; [reflexivity|].
    destruct Hgroup as [->|Hin]; [simpl; lia|].
    inversion Hsorted as [|? ? _ He]; subst.
    rewrite Forall_forall in He. apply (He _ Hin).
  - intros d e Hd Hne Hout He. specialize (Hgroup d Hd Hne).
    rewrite <- (firstn_skipn 10 ranking) in Hgroup, Hsorted.
    apply in_app_or in Hgroup. destruct Hgroup as [Hin|Hin].
    + exfalso. apply Hout. apply in_map_iff.
      eexists. split; [|exact Hin]. reflexivity.
    + apply (StronglySorted_app_inv _ _ Hsorted e _ He Hin).
Qed.

(** ** The eligibility distribution *)

Lemma sumCounts_positive (K : Type) (m : list (K * nat)) :
  m <> [] -> Forall (fun e => 1 <= snd e) m -> 1 <= sumCounts m.
Proof.
  destruct m as [|e m]; [congruence|]. intros _ H.
  inversion H; subst. rewrite sumCounts_cons. lia.
Qed.

(** X15. The distribution shows every group when there are at most four, and
    then adds no "Other"; with five groups or more it shows four and an
    "Other" that counts at least one record. *)
Theorem cafvDist_other_from_five_groups (subset : list Row) :
  let n := List.length (firstOcc String.eqb (map cafvKey subset)) in
  List.length (cafvDist subset) = Nat.min 5 n /\
  (n <= 4 -> Permutation (cafvDist subset)
                         (groups String.eqb (map cafvKey subset))) /\
  (4 < n -> exists top rest,
              cafvDist subset = top ++ [("Other", rest)] /\
              List.length top = 4 /\ 1 <= rest /\
              rest + sumCounts top = List.length subset).
Proof.
  cbv zeta. unfold cafvDist, JS.slice0, JS.sliceFrom.
  rewrite cafvCounts_groups, fold_left_sumCounts, Nat.add_0_l.
  set (gs := groups String.eqb (map cafvKey subset)).
  set (sorted := JS.sort byCountDesc gs).
  pose proof (sort_Permutation byCountDesc gs) as Hperm. fold sorted in Hperm.
  assert (Hn : List.length sorted
               = List.length (firstOcc String.eqb (map cafvKey subset))).
  { rewrite (Permutation_length Hperm). unfold gs, groups. apply length_map. }
  rewrite <- Hn.
  assert (Hpos : Forall (fun e => 1 <= snd e) (skipn 4 sorted)).
  { apply Forall_forall. intros [k c] Hin.
    assert (Hin' : In (k, c) sorted).
    { rewrite <- (firstn_skipn 4 sorted). apply in_or_app. right. exact Hin. }
    apply (Permutation_in _ Hperm) in Hin'. apply In_groups in Hin'.
    destruct Hin' as [Hk ->]. simpl. apply countOf_positive, Hk. }
  assert (Hsum : sumCounts (firstn 4 sorted) + sumCounts (skipn 4 sorted)
                 = List.length subset).
  { rewrite <- sumCounts_app, firstn_skipn, (sumCounts_Permutation Hperm).
    unfold gs. rewrite sumCounts_groups. apply length_map. }
  destruct (Nat.le_gt_cases (List.length sorted) 4) as [Hle|Hgt].
  - rewrite (skipn_all2 sorted Hle) in *. change (sumCounts []) with 0.
    change (0 <? 0)%nat with false. cbv iota. rewrite (firstn_all2 sorted Hle).
    split; [lia|]. split; [intros _; exact Hperm | intros H; exfalso; lia].
  - assert (Hrest : 1 <= sumCounts (skipn 4 sorted)).
    { apply sumCounts_positive; [|exact Hpos].
      intros Hnil. apply skipn_all_iff in Hnil. lia. }
    assert (Hlt : (0 <? sumCounts (skipn 4 sorted))%nat = true)
      by (apply Nat.ltb_lt; lia).
    rewrite Hlt. split; [|split; [intros H; exfalso; lia|]].
    + rewrite length_app, length_firstn. cbn [List.length]. lia.
    + intros _. exists (firstn 4 sorted), (sumCounts (skipn 4 sorted)).
      split; [reflexivity|]. split; [rewrite length_firstn; lia|].
      split; [exact Hrest | lia].
Qed.

(** ** The ranges of the counters *)





(** ** Views that ignore the order of the records *)








(** ** The year series and the year bounds *)





(** ** The marks given to the slider *)


